(** * Songamizer: the screen controller of static/js/app.js

    A shallow embedding of the class [SongamizerApp] and of the part of the
    browser it talks to (the document, the audio element, local storage,
    [fetch], [alert], the console), followed by the properties of the
    controller stated in the specification.

    The script is single-threaded.  An [async] method runs synchronously up
    to its first [await]; what follows the [await] runs later, when the
    request settles.  Each such method is therefore embedded as two
    computations: [m] (up to the [fetch]) and [m_resume] (from the settled
    response on).  Other handlers may run between the two.  Where a method
    awaits the response and then its body ([await fetch], then
    [await response.json()]), it touches no state between the two, and both
    are settled in one step. *)

From Stdlib Require Import ZArith List String Floats Bool Lia.
From stdpp Require Import base option list gmap strings.
Import ListNotations.
Open Scope string_scope.
Open Scope list_scope.
Open Scope Z_scope.

(** ** JavaScript values

    What [response.json()] can produce, plus [undefined] (the result of
    reading a property that is not there).  Numbers are IEEE doubles.  An
    object is the list of its own properties; the keys of an object are
    distinct. *)

Inductive value :=
| VUndefined
| VNull
| VBool (b : bool)
| VNum (f : float)
| VStr (s : string)
| VArr (xs : list value)
| VObj (fields : list (string * value)).

(** ToBoolean: what [if (v)], [!v], [v && w] and [v || w] test. *)
Definition truthy (v : value) : bool :=
  match v with
  | VUndefined | VNull => false
  | VBool b => b
  | VNum f => negb (PrimFloat.eqb f 0%float || PrimFloat.is_nan f)
  | VStr s => negb (String.eqb s "")
  | VArr _ | VObj _ => true
  end.

(** [a || b] *)
Definition js_or (a b : value) : value := if truthy a then a else b.

(** A string-or-null, as returned by [URLSearchParams.get],
    [localStorage.getItem] and [prompt]. *)
Definition nullable (o : option string) : value :=
  match o with Some s => VStr s | None => VNull end.

Fixpoint assoc (k : string) (fs : list (string * value)) : option value :=
  match fs with
  | [] => None
  | (k', v) :: fs' => if String.eqb k k' then Some v else assoc k fs'
  end.

(** ** Exceptions and the computation monad *)

Inductive error :=
| TypeError       (* property read on null or undefined, call of a non-function *)
| FetchRejected   (* the promise of fetch rejected: no response *)
| JsonRejected    (* the promise of response.json() rejected: body is not JSON *)
| SyntaxError.    (* a URL that does not parse, or the source of a handler that does not *)

Inductive result (A : Type) :=
| Ret (a : A)
| Throw (e : error).
Arguments Ret {A} a.
Arguments Throw {A} e.

(** [o.k] for the property names the script reads ([auth_url], [playlists],
    [track], [id], [name], [artist], [year], [stream_url], [spotify_url]),
    none of which exists on a built-in prototype. *)
Definition prop (o : value) (k : string) : result value :=
  match o with
  | VUndefined | VNull => Throw TypeError
  | VObj fs => Ret (default VUndefined (assoc k fs))
  | VBool _ | VNum _ | VStr _ | VArr _ => Ret VUndefined
  end.

(** [o.k] when [o] is known not to be null or undefined. *)
Definition field (o : value) (k : string) : value :=
  match prop o k with
  | Ret v => v
  | Throw _ => VUndefined
  end.

(** The characters that can stand in the single-quoted string literal of
    an inline handler, itself inside a double-quoted attribute, and mean
    themselves: the printable ASCII characters (codes 32 to 126) other
    than the double quote (34), the ampersand (38), the single quote (39)
    and the backslash (92). *)
Definition plain_char (c : Ascii.ascii) : bool :=
  let n := Ascii.nat_of_ascii c in
  (32 <=? n)%nat && (n <? 127)%nat
  && negb (Nat.eqb n 34) && negb (Nat.eqb n 38)
  && negb (Nat.eqb n 39) && negb (Nat.eqb n 92).

Fixpoint plain_string (s : string) : bool :=
  match s with
  | EmptyString => true
  | String c s' => plain_char c && plain_string s'
  end.

(** The string form of the value is made of plain characters.  The string
    forms of undefined, null, the booleans, the numbers and the objects
    ([[object Object]]) are; the one of an array joins those of its
    elements with commas. *)
Fixpoint plain (v : value) : bool :=
  match v with
  | VStr s => plain_string s
  | VArr xs => forallb plain xs
  | VUndefined | VNull | VBool _ | VNum _ | VObj _ => true
  end.

(** ** The state the script reads and writes *)

Inductive screen := connect | playlist | game | reveal.

(** The six endpoints.  A request keeps the value interpolated into its URL
    as it is (the URL carries its string form). *)
Inductive request :=
| GET_authorize                      (* GET /api/spotify/authorize *)
| GET_playlists                      (* GET /api/playlists *)
| POST_playlists (url : string)      (* POST /api/playlists, body {url} *)
| DELETE_playlist (id : value)       (* DELETE /api/playlists/${id} *)
| GET_play_track (id : value)        (* GET /api/play-track/${id} *)
| POST_reset.                        (* POST /api/reset *)

(** How a request settles: [fetch] rejects (network failure), or resolves to
    a response with its [ok] flag (status 2xx) and its body, [None] when the
    body does not parse as JSON. *)
Inductive response :=
| Rejected
| Response (ok : bool) (json : option value).

(** The fields of [this] that change.  [tracksPlayed] and
    [currentColorIndex] are JavaScript numbers that only ever hold
    integers, on which [++], [+ 1] and [%] are exact in the range a session
    can reach (below 2^53); [%] truncates, as [Z.rem]. *)
Record app := mkApp {
  currentScreen : screen;
  selectedPlaylist : value;
  currentTrack : value;
  tracksPlayed : Z;
  currentColorIndex : Z
}.

(** [this.cardColors], never assigned after the constructor. *)
Definition cardColors : list string :=
  [ "card-color-1"; "card-color-2"; "card-color-3"; "card-color-4";
    "card-color-5"; "card-color-6"; "card-color-7"; "card-color-8" ].

(** The element [#audioPlayer]. *)
Record audio := mkAudio {
  audio_src : value;
  audio_paused : bool
}.

(** The parts of the document the script writes.  A text is [None] as long
    as it is the one of the markup, and [Some v] once the script assigned
    [v] to [textContent].  [playlistList] holds the rendered items, each
    with the playlist it was rendered from and whether it carries the class
    [selected]. *)
Record page := mkPage {
  activeScreen : screen;
  playlistList : list (value * bool);
  startPlayingBtn_disabled : bool;
  artistName : option value;
  releaseYear : option value;
  songName : option value;
  tracksPlayedText : option Z;
  revealTracksPlayed : option Z;
  revealCard_className : string
}.

(** The rest of the browser: storage, the query string of the location,
    and what the script sent out. *)
Record env := mkEnv {
  localStorage : gmap string string;
  search : list (string * string);
  alerts : list string;
  console : list string;
  requests : list request;       (* every request sent, oldest first *)
  pending : list request;        (* those not settled yet *)
  navigations : list value;      (* assignments to window.location.href *)
  opened : list value            (* window.open(url, '_blank') *)
}.

Record state := mkState {
  this : app;
  audioPlayer : audio;
  document : page;
  window : env
}.

Definition M (A : Type) : Type := state -> result A * state.

Definition ret {A} (a : A) : M A := fun s => (Ret a, s).

Definition bind {A B} (m : M A) (k : A -> M B) : M B :=
  fun s => match m s with
           | (Ret a, s') => k a s'
           | (Throw e, s') => (Throw e, s')
           end.

Definition throw {A} (e : error) : M A := fun s => (Throw e, s).

Definition lift {A} (r : result A) : M A := fun s => (r, s).

(** [try { m } catch (error) { h }]: the writes of [m] before the throw stay. *)
Definition try_catch {A} (m : M A) (h : M A) : M A :=
  fun s => match m s with
           | (Ret a, s') => (Ret a, s')
           | (Throw _, s') => h s'
           end.

(** Two listeners of one click, the second reached by bubbling: both run.
    An exception that the first does not catch is reported by the browser
    and does not stop the second; it is what the event reports. *)
Definition then_bubble (first second : M unit) : M unit :=
  fun s => match first s with
           | (Ret _, s1) => second s1
           | (Throw e, s1) => (Throw e, snd (second s1))
           end.

Definition gets {A} (f : state -> A) : M A := fun s => (Ret (f s), s).

Definition modify (f : state -> state) : M unit := fun s => (Ret tt, f s).

Definition when (b : bool) (m : M unit) : M unit := if b then m else ret tt.

(** The state a computation leaves, whether it returned or threw. *)
Definition exec {A} (m : M A) (s : state) : state := snd (m s).

Declare Scope js_scope.
Delimit Scope js_scope with js.
Notation "x <- m ;; k" := (bind m (fun x => k))
  (at level 100, m at next level, right associativity) : js_scope.
Notation "m ;; k" := (bind m (fun _ => k))
  (at level 100, right associativity) : js_scope.
Open Scope js_scope.

(** ** Field updates *)

Definition on_this (f : app -> app) (s : state) : state :=
  mkState (f (this s)) (audioPlayer s) (document s) (window s).
Definition on_audioPlayer (f : audio -> audio) (s : state) : state :=
  mkState (this s) (f (audioPlayer s)) (document s) (window s).
Definition on_document (f : page -> page) (s : state) : state :=
  mkState (this s) (audioPlayer s) (f (document s)) (window s).
Definition on_window (f : env -> env) (s : state) : state :=
  mkState (this s) (audioPlayer s) (document s) (f (window s)).

Definition set_currentScreen (x : screen) (a : app) : app :=
  mkApp x (selectedPlaylist a) (currentTrack a) (tracksPlayed a) (currentColorIndex a).
Definition set_selectedPlaylist (x : value) (a : app) : app :=
  mkApp (currentScreen a) x (currentTrack a) (tracksPlayed a) (currentColorIndex a).
Definition set_currentTrack (x : value) (a : app) : app :=
  mkApp (currentScreen a) (selectedPlaylist a) x (tracksPlayed a) (currentColorIndex a).
Definition set_tracksPlayed (x : Z) (a : app) : app :=
  mkApp (currentScreen a) (selectedPlaylist a) (currentTrack a) x (currentColorIndex a).
Definition set_currentColorIndex (x : Z) (a : app) : app :=
  mkApp (currentScreen a) (selectedPlaylist a) (currentTrack a) (tracksPlayed a) x.

Definition set_audio_src (x : value) (a : audio) : audio := mkAudio x (audio_paused a).
Definition set_audio_paused (x : bool) (a : audio) : audio := mkAudio (audio_src a) x.

Definition set_activeScreen (x : screen) (p : page) : page :=
  mkPage x (playlistList p) (startPlayingBtn_disabled p) (artistName p)
         (releaseYear p) (songName p) (tracksPlayedText p) (revealTracksPlayed p)
         (revealCard_className p).
Definition set_playlistList (x : list (value * bool)) (p : page) : page :=
  mkPage (activeScreen p) x (startPlayingBtn_disabled p) (artistName p)
         (releaseYear p) (songName p) (tracksPlayedText p) (revealTracksPlayed p)
         (revealCard_className p).
Definition set_startPlayingBtn_disabled (x : bool) (p : page) : page :=
  mkPage (activeScreen p) (playlistList p) x (artistName p)
         (releaseYear p) (songName p) (tracksPlayedText p) (revealTracksPlayed p)
         (revealCard_className p).
Definition set_artistName (x : value) (p : page) : page :=
  mkPage (activeScreen p) (playlistList p) (startPlayingBtn_disabled p) (Some x)
         (releaseYear p) (songName p) (tracksPlayedText p) (revealTracksPlayed p)
         (revealCard_className p).
Definition set_releaseYear (x : value) (p : page) : page :=
  mkPage (activeScreen p) (playlistList p) (startPlayingBtn_disabled p) (artistName p)
         (Some x) (songName p) (tracksPlayedText p) (revealTracksPlayed p)
         (revealCard_className p).
Definition set_songName (x : value) (p : page) : page :=
  mkPage (activeScreen p) (playlistList p) (startPlayingBtn_disabled p) (artistName p)
         (releaseYear p) (Some x) (tracksPlayedText p) (revealTracksPlayed p)
         (revealCard_className p).
Definition set_tracksPlayedText (x : Z) (p : page) : page :=
  mkPage (activeScreen p) (playlistList p) (startPlayingBtn_disabled p) (artistName p)
         (releaseYear p) (songName p) (Some x) (revealTracksPlayed p)
         (revealCard_className p).
Definition set_revealTracksPlayed (x : Z) (p : page) : page :=
  mkPage (activeScreen p) (playlistList p) (startPlayingBtn_disabled p) (artistName p)
         (releaseYear p) (songName p) (tracksPlayedText p) (Some x)
         (revealCard_className p).
Definition set_revealCard_className (x : string) (p : page) : page :=
  mkPage (activeScreen p) (playlistList p) (startPlayingBtn_disabled p) (artistName p)
         (releaseYear p) (songName p) (tracksPlayedText p) (revealTracksPlayed p) x.

Definition set_localStorage (x : gmap string string) (w : env) : env :=
  mkEnv x (search w) (alerts w) (console w) (requests w) (pending w)
        (navigations w) (opened w).
Definition add_alert (msg : string) (w : env) : env :=
  mkEnv (localStorage w) (search w) (alerts w ++ [msg]) (console w) (requests w)
        (pending w) (navigations w) (opened w).
Definition add_console (msg : string) (w : env) : env :=
  mkEnv (localStorage w) (search w) (alerts w) (console w ++ [msg]) (requests w)
        (pending w) (navigations w) (opened w).
Definition add_request (r : request) (w : env) : env :=
  mkEnv (localStorage w) (search w) (alerts w) (console w) (requests w ++ [r])
        (pending w ++ [r]) (navigations w) (opened w).
Definition set_pending (x : list request) (w : env) : env :=
  mkEnv (localStorage w) (search w) (alerts w) (console w) (requests w) x
        (navigations w) (opened w).
Definition add_navigation (url : value) (w : env) : env :=
  mkEnv (localStorage w) (search w) (alerts w) (console w) (requests w)
        (pending w) (navigations w ++ [url]) (opened w).
Definition add_opened (url : value) (w : env) : env :=
  mkEnv (localStorage w) (search w) (alerts w) (console w) (requests w)
        (pending w) (navigations w) (opened w ++ [url]).

(** ** The browser functions the script calls *)

Definition alert (msg : string) : M unit := modify (on_window (add_alert msg)).

(** [console.error(msg, error)] and [console.log(msg, error)]. *)
Definition console_error (msg : string) : M unit := modify (on_window (add_console msg)).
Definition console_log (msg : string) : M unit := modify (on_window (add_console msg)).

(** [fetch(...)] sends the request and returns a promise at once. *)
Definition fetch (r : request) : M unit := modify (on_window (add_request r)).

(** [window.location.href = url]: the browser parses the URL against the
    address of the page, and [accepted] tells whether it parses.  If it
    does the navigation starts; if not the setter throws. *)
Definition set_location_href (url : value) (accepted : bool) : M unit :=
  if accepted then modify (on_window (add_navigation url))
  else throw SyntaxError.

(** [await fetch(...)]: the response's [ok], or the rejection thrown. *)
Definition await_fetch (resp : response) : M bool :=
  match resp with
  | Rejected => throw FetchRejected
  | Response ok _ => ret ok
  end.

(** [await response.json()]; there is no response to read after a
    rejection. *)
Definition await_json (resp : response) : M value :=
  match resp with
  | Rejected => throw FetchRejected
  | Response _ None => throw JsonRejected
  | Response _ (Some data) => ret data
  end.

(** [localStorage.getItem(k)] and [localStorage.setItem(k, v)] *)
Definition getItem (k : string) : M (option string) :=
  gets (fun s => localStorage (window s) !! k).
Definition setItem (k v : string) : M unit :=
  modify (on_window (fun w => set_localStorage (<[k := v]> (localStorage w)) w)).

Fixpoint first_param (k : string) (q : list (string * string)) : option string :=
  match q with
  | [] => None
  | (k', v) :: q' => if String.eqb k k' then Some v else first_param k q'
  end.

(** [new URLSearchParams(window.location.search).get(k)]: the first value
    given to [k] in the query string, or null. *)
Definition urlParams_get (k : string) : M (option string) :=
  gets (fun s => first_param k (search (window s))).

(** [xs[i]]: undefined outside the array. *)
Definition js_index {A} (xs : list A) (i : Z) : option A :=
  if i <? 0 then None else xs !! Z.to_nat i.

(** [`${c}`] for a string-or-undefined. *)
Definition interpolate (c : option string) : string := default "undefined" c.

Fixpoint forEach {A} (xs : list A) (f : A -> M unit) : M unit :=
  match xs with
  | [] => ret tt
  | x :: xs' => f x ;; forEach xs' f
  end.

(** ** The methods of [SongamizerApp] *)

(** [showScreen(screenName)]: every [.screen] loses the class [active], the
    target gets it, and [this.currentScreen] follows. *)
Definition showScreen (screenName : screen) : M unit :=
  modify (on_document (set_activeScreen screenName)) ;;
  modify (on_this (set_currentScreen screenName)).

Definition updateTrackCounter : M unit :=
  n <- gets (fun s => tracksPlayed (this s)) ;;
  modify (on_document (set_tracksPlayedText n)) ;;
  n <- gets (fun s => tracksPlayed (this s)) ;;
  modify (on_document (set_revealTracksPlayed n)).

Definition getNextCardColor : M (option string) :=
  i <- gets (fun s => currentColorIndex (this s)) ;;
  let color := js_index cardColors i in
  modify (on_this (set_currentColorIndex
                     (Z.rem (i + 1) (Z.of_nat (length cardColors))))) ;;
  ret color.

Definition loadPlaylists_catch : M unit :=
  console_error "Error loading playlists:".

Definition loadPlaylists : M unit :=
  try_catch (fetch GET_playlists) loadPlaylists_catch.

(** One turn of the [forEach] of [renderPlaylists]: the template reads
    [playlist.name] and [playlist.id], then the item is appended. *)
Definition renderItem (playlist : value) : M unit :=
  _ <- lift (prop playlist "name") ;;
  _ <- lift (prop playlist "id") ;;
  modify (on_document (fun p => set_playlistList (playlistList p ++ [(playlist, false)]) p)).

(** [renderPlaylists(playlists)]: only an array has [forEach]. *)
Definition renderPlaylists (playlists : value) : M unit :=
  modify (on_document (set_playlistList [])) ;;
  match playlists with
  | VArr xs => forEach xs renderItem
  | _ => throw TypeError
  end.

Definition loadPlaylists_resume (resp : response) : M unit :=
  try_catch
    (_ <- await_fetch resp ;;
     data <- await_json resp ;;
     playlists <- lift (prop data "playlists") ;;
     when (truthy playlists) (renderPlaylists playlists))
    loadPlaylists_catch.

Definition checkAuthStatus : M unit :=
  sessionId <- urlParams_get "session_id" ;;
  if truthy (nullable sessionId) then
    setItem "spotify_session" (default "" sessionId) ;;
    loadPlaylists ;;
    showScreen playlist
  else
    stored <- getItem "spotify_session" ;;
    if truthy (nullable stored) then
      loadPlaylists ;;
      showScreen playlist
    else
      showScreen connect.

Definition connectToSpotify_catch : M unit :=
  console_error "Error connecting to Spotify:" ;;
  alert "Failed to connect to Spotify. Please try again.".

Definition connectToSpotify : M unit :=
  try_catch (fetch GET_authorize) connectToSpotify_catch.

Definition connectToSpotify_resume (resp : response) (accepted : bool) : M unit :=
  try_catch
    (_ <- await_fetch resp ;;
     data <- await_json resp ;;
     auth_url <- lift (prop data "auth_url") ;;
     when (truthy auth_url) (set_location_href auth_url accepted))
    connectToSpotify_catch.

(** [selectPlaylist(playlist, element)]; the element is given by its
    position in the rendered list. *)
Definition selectPlaylist (playlist : value) (element : nat) : M unit :=
  modify (on_document (fun p =>
    set_playlistList (map (fun it => (fst it, false)) (playlistList p)) p)) ;;
  modify (on_document (fun p =>
    set_playlistList (alter (fun it => (fst it, true)) element (playlistList p)) p)) ;;
  modify (on_this (set_selectedPlaylist playlist)) ;;
  modify (on_document (set_startPlayingBtn_disabled false)).

Definition addPlaylist_catch : M unit :=
  console_error "Error adding playlist:" ;;
  alert "Failed to add playlist. Please try again.".

(** [addPlaylist()]; [answer] is what [prompt] returned. *)
Definition addPlaylist (answer : option string) : M unit :=
  if truthy (nullable answer) then
    try_catch (fetch (POST_playlists (default "" answer))) addPlaylist_catch
  else ret tt.

Definition addPlaylist_resume (resp : response) : M unit :=
  try_catch
    (ok <- await_fetch resp ;;
     if ok then loadPlaylists
     else alert "Failed to add playlist. Please check the URL and try again.")
    addPlaylist_catch.

Definition removePlaylist_catch : M unit :=
  console_error "Error removing playlist:".

Definition removePlaylist (playlistId : value) : M unit :=
  try_catch (fetch (DELETE_playlist playlistId)) removePlaylist_catch.

Definition removePlaylist_resume (resp : response) : M unit :=
  try_catch
    (ok <- await_fetch resp ;;
     when ok loadPlaylists)
    removePlaylist_catch.

(** What the browser makes of the inline handler of a remove button whose
    id is not plain: the id is pasted into the source of the handler
    ([app.removePlaylist('${playlist.id}')]), so that a quote ends the
    literal or the attribute, a backslash starts an escape and an ampersand
    a character reference. *)
Inductive inline :=
| Reports                      (* the source does not parse: a SyntaxError is reported *)
| Dropped                      (* the handler was dropped after that report: nothing runs *)
| Calls (playlistId : value).  (* the source parses to a call with another argument *)

(** The inline handler of the remove button rendered for a playlist with
    this id.  For a plain id the source is the call of [removePlaylist]
    with the string form of the id (as for the other requests, the model
    keeps the value); for another id, [otherwise] tells what the browser
    makes of the source.  Statements that an id may inject into the source
    are not code of the controller and are left out. *)
Definition inline_onclick (id : value) (otherwise : inline) : M unit :=
  if plain id then removePlaylist id
  else match otherwise with
       | Reports => throw SyntaxError
       | Dropped => ret tt
       | Calls playlistId => removePlaylist playlistId
       end.

Definition playRandomTrack_catch : M unit :=
  console_error "Error playing track:" ;;
  alert "Failed to load track. Please try again.".

(** Up to the [fetch]: building the URL reads [this.selectedPlaylist.id]. *)
Definition playRandomTrack : M unit :=
  try_catch
    (sel <- gets (fun s => selectedPlaylist (this s)) ;;
     id <- lift (prop sel "id") ;;
     fetch (GET_play_track id))
    playRandomTrack_catch.

(** [this.audioPlayer.play().catch(...)]: [played] tells whether the promise
    of [play()] resolved; a rejection (autoplay refused) is logged. *)
Definition audioPlayer_play (played : bool) : M unit :=
  if played then modify (on_audioPlayer (set_audio_paused false))
  else console_log "Audio autoplay prevented:".

Definition playRandomTrack_resume (resp : response) (played : bool) : M unit :=
  try_catch
    (_ <- await_fetch resp ;;
     data <- await_json resp ;;
     track <- lift (prop data "track") ;;
     when (truthy track)
       (modify (on_this (set_currentTrack track)) ;;
        modify (on_this (fun a => set_tracksPlayed (tracksPlayed a + 1) a)) ;;
        updateTrackCounter ;;
        stream_url <- lift (prop track "stream_url") ;;
        when (truthy stream_url)
          (modify (on_audioPlayer (set_audio_src stream_url)) ;;
           audioPlayer_play played)))
    playRandomTrack_catch.

Definition startGame : M unit :=
  sel <- gets (fun s => selectedPlaylist (this s)) ;;
  if negb (truthy sel) then
    alert "Please select a playlist first."
  else
    showScreen game ;;
    playRandomTrack.

Definition revealCard : M unit :=
  track <- gets (fun s => currentTrack (this s)) ;;
  if negb (truthy track) then
    alert "No track loaded. Please try again."
  else
    artist <- lift (prop track "artist") ;;
    modify (on_document (set_artistName artist)) ;;
    year <- lift (prop track "year") ;;
    modify (on_document (set_releaseYear (js_or year (VStr "Unknown")))) ;;
    name <- lift (prop track "name") ;;
    modify (on_document (set_songName name)) ;;
    n <- gets (fun s => tracksPlayed (this s)) ;;
    modify (on_document (set_revealTracksPlayed n)) ;;
    color <- getNextCardColor ;;
    modify (on_document (set_revealCard_className
                           ("reveal-card " ++ interpolate color)%string)) ;;
    showScreen reveal.

Definition playNextSong : M unit :=
  showScreen game ;;
  playRandomTrack.

Definition openInSpotify : M unit :=
  track <- gets (fun s => currentTrack (this s)) ;;
  if truthy track then
    spotify_url <- lift (prop track "spotify_url") ;;
    when (truthy spotify_url) (modify (on_window (add_opened spotify_url)))
  else ret tt.

Definition resetGame_catch : M unit :=
  console_error "Error resetting game:".

Definition resetGame : M unit :=
  try_catch (fetch POST_reset) resetGame_catch.

Definition resetGame_resume (resp : response) : M unit :=
  try_catch
    (_ <- await_fetch resp ;;
     modify (on_this (set_tracksPlayed 0)) ;;
     modify (on_this (set_currentTrack VNull)) ;;
     updateTrackCounter ;;
     modify (on_audioPlayer (set_audio_paused true)) ;;
     modify (on_audioPlayer (set_audio_src (VStr ""))) ;;
     showScreen playlist)
    resetGame_catch.

(** ** Events: what [bindEvents] and [renderPlaylists] listen to, and the
    settling of a request *)

Inductive event :=
| Click_connectSpotifyBtn
| Click_addPlaylistBtn (answer : option string)  (* with the answer to the prompt *)
| Click_startPlayingBtn
| Click_revealBtn
| Click_playNextBtn
| Click_spotifyBtn
| Click_resetBtn
| Click_revealResetBtn
| Click_playBtn
| Click_playlistItem (i : nat)
| Click_playlistRemove (i : nat) (on_icon : bool) (otherwise : inline)
| Settled (i : nat) (resp : response) (granted : bool).

(** What runs when request [r] settles with [resp]; [granted] tells
    whether the browser carries out what the continuation then asks of it:
    the navigation to the authorization URL, the [play()] of a track. *)
Definition resume (r : request) (resp : response) (granted : bool) : M unit :=
  match r with
  | GET_authorize => connectToSpotify_resume resp granted
  | GET_playlists => loadPlaylists_resume resp
  | POST_playlists _ => addPlaylist_resume resp
  | DELETE_playlist _ => removePlaylist_resume resp
  | GET_play_track _ => playRandomTrack_resume resp granted
  | POST_reset => resetGame_resume resp
  end.

(** The listeners.  A click on the remove button of item [i] runs the
    inline handler of the button and then bubbles to the listener of the
    item, which selects the playlist unless the target carries the class
    [playlist-remove]: the button carries it, the icon inside it does not.
    [Settled i] settles the [i]-th pending request. *)
Definition on (e : event) : M unit :=
  match e with
  | Click_connectSpotifyBtn => connectToSpotify
  | Click_addPlaylistBtn answer => addPlaylist answer
  | Click_startPlayingBtn => startGame
  | Click_revealBtn => revealCard
  | Click_playNextBtn => playNextSong
  | Click_spotifyBtn => openInSpotify
  | Click_resetBtn => resetGame
  | Click_revealResetBtn => resetGame
  | Click_playBtn => showScreen playlist
  | Click_playlistItem i =>
      items <- gets (fun s => playlistList (document s)) ;;
      match items !! i with
      | Some (p, _) => selectPlaylist p i
      | None => ret tt
      end
  | Click_playlistRemove i on_icon otherwise =>
      items <- gets (fun s => playlistList (document s)) ;;
      match items !! i with
      | Some (p, _) =>
          then_bubble (inline_onclick (field p "id") otherwise)
                      (when on_icon (selectPlaylist p i))
      | None => ret tt
      end
  | Settled i resp granted =>
      reqs <- gets (fun s => pending (window s)) ;;
      match reqs !! i with
      | Some r =>
          modify (on_window (set_pending (delete i reqs))) ;;
          resume r resp granted
      | None => ret tt
      end
  end.

Definition handle (e : event) (s : state) : state := exec (on e) s.

Definition bindEvents : M unit := ret tt.

Definition init : M unit :=
  bindEvents ;;
  checkAuthStatus.

(** [new SongamizerApp()], run on the page as loaded: [doc] and [player]
    are the document and the audio element as the markup gives them, [store]
    is local storage and [query] the query string of the location. *)
Definition SongamizerApp (doc : page) (player : audio)
    (store : gmap string string) (query : list (string * string)) : state :=
  exec init
    (mkState (mkApp connect VNull VNull 0 0) player doc
             (mkEnv store query [] [] [] [] [] [])).

Definition screen_eqb (a b : screen) : bool :=
  match a, b with
  | connect, connect | playlist, playlist | game, game | reveal, reveal => true
  | _, _ => false
  end.

(** [xs] has an element at position [i]. *)
Definition has_index {A} (xs : list A) (i : nat) : bool :=
  match xs !! i with Some _ => true | None => false end.

(** Modelled from the spec: the markup and the stylesheet of the page are
    not part of the sources.  The specification has exactly one screen
    visible at a time, and the comments of [bindEvents] place each button on
    a screen (connect, playlist, game, reveal; the reset buttons and the
    header button stand apart).  A button is taken to be clickable only
    while its screen is the active one; the two reset buttons and the
    header button are not restricted.  A rendered playlist can be clicked
    while it is listed, and a request can settle whenever it is pending. *)
Definition enabled (e : event) (s : state) : bool :=
  let at_screen x := screen_eqb (activeScreen (document s)) x in
  match e with
  | Click_connectSpotifyBtn => at_screen connect
  | Click_addPlaylistBtn _ => at_screen playlist
  | Click_startPlayingBtn => at_screen playlist
  | Click_playlistItem i =>
      at_screen playlist && has_index (playlistList (document s)) i
  | Click_playlistRemove i _ _ =>
      at_screen playlist && has_index (playlistList (document s)) i
  | Click_revealBtn => at_screen game
  | Click_playNextBtn => at_screen reveal
  | Click_spotifyBtn => at_screen reveal
  | Click_resetBtn | Click_revealResetBtn | Click_playBtn => true
  | Settled i _ _ => has_index (pending (window s)) i
  end.

(** A run of the page: the constructor, then enabled events one by one. *)
Inductive reachable : state -> Prop :=
| reachable_new doc player store query :
    reachable (SongamizerApp doc player store query)
| reachable_step e s :
    reachable s -> enabled e s = true -> reachable (handle e s).

(** The same without the restriction on clicks: every listener may run at
    any time, as when the methods are called directly. *)
Inductive reachable_any : state -> Prop :=
| reachable_any_new doc player store query :
    reachable_any (SongamizerApp doc player store query)
| reachable_any_step e s :
    reachable_any s -> reachable_any (handle e s).

(** An uninterrupted run of an [async] method that sends one request: [m]
    runs up to its [await], then the request it sent (the last one pending)
    settles with [resp] before any other handler runs; [granted] tells
    whether the browser carries out what the continuation asks of it. *)
Definition complete (m : M unit) (resp : response) (granted : bool) (s : state) : state :=
  let s1 := exec m s in
  handle (Settled (Nat.pred (length (pending (window s1)))) resp granted) s1.

(** ** Sample data for the closed examples *)

Definition blank_page : page :=
  mkPage connect [] true None None None None None "reveal-card".

Definition silent_player : audio := mkAudio VUndefined true.

Definition party_mix : value := VObj [("id", VStr "p1"); ("name", VStr "Party mix")].

Definition track_XY : value := VObj [("name", VStr "X"); ("artist", VStr "Y")].

(** A page opened without a session. *)
Definition fresh : state := SongamizerApp blank_page silent_player ∅ [].

Definition track_year_0 : value :=
  VObj [("name", VStr "X"); ("artist", VStr "Y"); ("year", VNum 0%float)].

(** The events that lead from the constructor to a game in which the track
    [track] has been received: the playlists arrive, the first one is
    clicked, the game is started, the track arrives. *)
Definition to_first_track (track : value) : list event :=
  [ Settled 0 (Response true (Some (VObj [("playlists", VArr [party_mix])]))) false;
    Click_playlistItem 0;
    Click_startPlayingBtn;
    Settled 0 (Response true (Some (VObj [("track", track)]))) false ].

(** A page opened on return from the authorization, then the events of
    [to_first_track]. *)
Definition playing_with (track : value) : state :=
  fold_left (fun s e => handle e s) (to_first_track track)
    (SongamizerApp blank_page silent_player ∅ [("session_id", "abc123")]).

Definition playing : state := playing_with track_XY.

(** ** Notions used in the statements *)

(** The state in which [r] has been sent and has settled. *)
Definition sent (r : request) (s : state) : state :=
  on_window (set_pending (pending (window s))) (on_window (add_request r) s).

(** The body cannot be read as an object: the request was rejected, or the
    body is not JSON, or it is the JSON [null] (reading [data.auth_url]
    throws).  These are the runs that reach the [catch]. *)
Definition unreadable (resp : response) : bool :=
  match resp with
  | Rejected | Response _ None => true
  | Response _ (Some data) =>
      match prop data "auth_url" with Throw _ => true | Ret _ => false end
  end.

(** [data.auth_url] of a readable response. *)
Definition auth_url_of (resp : response) : value :=
  match resp with
  | Response _ (Some data) => field data "auth_url"
  | _ => VUndefined
  end.


(** [keeps f m]: running [m] does not change the part [f] of the state,
    whether [m] returns or throws. *)
Definition keeps {A B} (f : state -> B) (m : M A) : Prop :=
  forall s, f (snd (m s)) = f s.

(** The play counter, and what decides the selection invariant: the two
    records of the screen and the selected playlist. *)
Definition counter (s : state) : Z := tracksPlayed (this s).

Definition screens (s : state) : screen * screen :=
  (currentScreen (this s), activeScreen (document s)).

Definition shown (s : state) : screen * screen * value :=
  (screens s, selectedPlaylist (this s)).

(** Events that touch neither the counter nor the screen nor the
    selection: everything but starting, revealing, going on, resetting,
    selecting, and the settling of a request. *)
Definition quiet (e : event) : bool :=
  match e with
  | Click_connectSpotifyBtn | Click_addPlaylistBtn _ | Click_spotifyBtn
  | Click_resetBtn | Click_revealResetBtn => true
  | _ => false
  end.

(** Requests whose settling touches neither the counter nor what is shown. *)
Definition background (r : request) : bool :=
  match r with
  | GET_play_track _ | POST_reset => false
  | _ => true
  end.

(** [data.track] of a response with a JSON body that can be read. *)
Definition track_of (resp : response) : value :=
  match resp with
  | Response _ (Some data) => field data "track"
  | _ => VUndefined
  end.

(** The event is a successful track fetch: a pending request for a track
    settles with a response that contains a track. *)
Definition fetched_track (e : event) (s : state) : bool :=
  match e with
  | Settled i resp _ =>
      match pending (window s) !! i with
      | Some (GET_play_track _) => truthy (track_of resp)
      | _ => false
      end
  | _ => false
  end.

(** The event is the resolution (with any status) of a pending reset. *)
Definition reset_resolved (e : event) (s : state) : bool :=
  match e with
  | Settled i (Response _ _) _ =>
      match pending (window s) !! i with
      | Some POST_reset => true
      | _ => false
      end
  | _ => false
  end.

(** A game started, the request for its first track still pending. *)
Definition started : state :=
  fold_left (fun s e => handle e s) (firstn 3 (to_first_track track_XY))
    (SongamizerApp blank_page silent_player ∅ [("session_id", "abc123")]).

(** The invariant of the specification. *)
Definition selection_invariant (s : state) : Prop :=
  currentScreen (this s) = game \/ currentScreen (this s) = reveal ->
  selectedPlaylist (this s) <> VNull.

(** What the runs of the page maintain: the document shows the screen the
    controller records, and the invariant holds. *)
Definition consistent (s : state) : Prop :=
  activeScreen (document s) = currentScreen (this s) /\
  selection_invariant s.

(** ** Notions used in the further properties *)

(** [null] or [undefined]: the values on which a property read throws. *)
Definition nullish (v : value) : bool :=
  match v with
  | VUndefined | VNull => true
  | _ => false
  end.

(** The elements of an array that [renderPlaylists] gets to render: those
    before the first [null]. *)
Fixpoint renderable (xs : list value) : list value :=
  match xs with
  | [] => []
  | x :: xs' => if nullish x then [] else x :: renderable xs'
  end.

(** Freshly rendered items: none carries the class [selected]. *)
Definition unselected (xs : list value) : list (value * bool) :=
  map (fun p => (p, false)) xs.

(** [data.playlists] of a response whose body can be read, [None] when the
    request was rejected, the body is not JSON, or it is the JSON null. *)
Definition playlists_of (resp : response) : option value :=
  match resp with
  | Response _ (Some data) =>
      match prop data "playlists" with
      | Ret v => Some v
      | Throw _ => None
      end
  | _ => None
  end.

(** The response gives no body to read properties from: the request was
    rejected, the body is not JSON, or it is the JSON null. *)
Definition no_body (resp : response) : bool :=
  match resp with
  | Response _ (Some data) => nullish data
  | _ => true
  end.

(** The state after a track has been received: [track] is the current
    track, the counter is one more and shown in both places; with a stream
    URL the player gets it as source and [play()] either goes through or is
    logged. *)
Definition track_loaded (track : value) (played : bool) (s : state) : state :=
  let n := tracksPlayed (this s) + 1 in
  let s1 :=
    on_document (fun d => set_revealTracksPlayed n (set_tracksPlayedText n d))
      (on_this (fun a => set_tracksPlayed n (set_currentTrack track a)) s) in
  if truthy (field track "stream_url") then
    let s2 := on_audioPlayer (set_audio_src (field track "stream_url")) s1 in
    if played then on_audioPlayer (set_audio_paused false) s2
    else on_window (add_console "Audio autoplay prevented:") s2
  else s1.

(** The page after the constructor and the events [es], in order. *)
Definition run (doc : page) (player : audio) (store : gmap string string)
    (query : list (string * string)) (es : list event) : state :=
  fold_left (fun s e => handle e s) es (SongamizerApp doc player store query).

(** A string-or-null that passes [if (...)]: not null and not empty. *)
Definition present (o : option string) : bool := truthy (nullable o).


(** The document and the controller agree on the screen. *)
Definition agree (s : state) : Prop :=
  activeScreen (document s) = currentScreen (this s).

(** A counter text is up to date: it shows the counter, or it is still the
    one of the markup and the counter is 0. *)
Definition up_to_date (text : option Z) (n : Z) : Prop :=
  text = Some n \/ (text = None /\ n = 0).

(** The counter is not negative and both counter texts are up to date. *)
Definition counter_displayed (s : state) : Prop :=
  0 <= tracksPlayed (this s) /\
  up_to_date (tracksPlayedText (document s)) (tracksPlayed (this s)) /\
  up_to_date (revealTracksPlayed (document s)) (tracksPlayed (this s)).

(** The counter and its two texts. *)
Definition display (s : state) : Z * option Z * option Z :=
  (tracksPlayed (this s), tracksPlayedText (document s), revealTracksPlayed (document s)).

(** A playlist whose id holds a single quote, and a page that lists it. *)
Definition quoted_mix : value := VObj [("id", VStr "a'b"); ("name", VStr "Quoted mix")].

Definition listing_quoted : state :=
  run blank_page silent_player ∅ [("session_id", "abc123")]
    [Settled 0 (Response true (Some (VObj [("playlists", VArr [quoted_mix])]))) false].


(** * Properties *)

(** ** Settling the request a method has just sent *)

Lemma delete_last_sent (l : list request) (r : request) :
  delete (length l) (l ++ [r]) = l.
Proof.
  induction l as [|x l IH]; simpl; [reflexivity|].
  f_equal. exact IH.
Qed.

Lemma lookup_last_sent (l : list request) (r : request) :
  (l ++ [r]) !! Nat.pred (length (l ++ [r])) = Some r.
Proof.
  rewrite length_app. simpl. rewrite Nat.add_1_r. simpl.
  induction l as [|x l IH]; simpl; [reflexivity | exact IH].
Qed.

Lemma complete_fetch (m : M unit) (r : request) resp played s :
  exec m s = exec (fetch r) s ->
  complete m resp played s = exec (resume r resp played) (sent r s).
Proof.
  intros Hm. unfold complete. rewrite Hm.
  unfold handle, exec at 1, on, bind, gets, fetch, modify. simpl.
  rewrite lookup_last_sent.
  rewrite length_app. simpl. rewrite Nat.add_1_r. simpl.
  rewrite delete_last_sent. reflexivity.
Qed.

(** ** resetGame *)

Lemma resetGame_sends s : exec resetGame s = exec (fetch POST_reset) s.
Proof. reflexivity. Qed.

(** When the request resolves, whatever the status, the local reset runs
    from whatever state the page is in at that moment. *)
Lemma resetGame_resume_resolved ok body s :
  exec (resetGame_resume (Response ok body)) s
  = on_this (fun a => mkApp playlist (selectedPlaylist a) VNull 0 (currentColorIndex a))
      (on_audioPlayer (fun _ => mkAudio (VStr "") true)
        (on_document (fun p => set_activeScreen playlist
                                 (set_revealTracksPlayed 0 (set_tracksPlayedText 0 p))) s)).
Proof. reflexivity. Qed.

(** When it rejects, the [catch] logs and nothing else happens. *)
Lemma resetGame_resume_rejected s :
  exec (resetGame_resume Rejected) s
  = on_window (add_console "Error resetting game:") s.
Proof. reflexivity. Qed.

(** C1, as stated, fails: on the page [playing] (one track played), a reset
    whose request is rejected by the network leaves the counter at 1 and
    the track loaded, and the screen is still the game screen. *)
Lemma resetGame_rejected_keeps_state :
  let s' := complete resetGame Rejected false playing in
  tracksPlayed (this s') = 1 /\
  tracksPlayed (this s') <> 0 /\
  currentTrack (this s') = track_XY /\
  currentTrack (this s') <> VNull /\
  currentScreen (this s') = game /\
  currentScreen (this s') <> playlist /\
  console (window s') = ["Error resetting game:"].
Proof. vm_compute. repeat split; try reflexivity; discriminate. Qed.

(** C1 (amended): for every prior state, when the POST /api/reset call
    resolves, with a 2xx or a non-2xx response, after resetGame the play
    counter is 0, the current track is null, audio is stopped (paused, with
    an empty source) and the active screen is 'playlist'; when the call
    rejects (network failure) the error is logged only and the local state
    (counter, track, audio, screen) is what it was.  One request is sent in
    both cases. *)
Theorem resetGame_resets_iff_fetch_resolves (s : state) (played : bool) :
  (forall ok body,
     let s' := complete resetGame (Response ok body) played s in
     tracksPlayed (this s') = 0 /\
     currentTrack (this s') = VNull /\
     audio_paused (audioPlayer s') = true /\
     audio_src (audioPlayer s') = VStr "" /\
     currentScreen (this s') = playlist /\
     activeScreen (document s') = playlist /\
     requests (window s') = requests (window s) ++ [POST_reset] /\
     console (window s') = console (window s)) /\
  (let s' := complete resetGame Rejected played s in
   this s' = this s /\
   audioPlayer s' = audioPlayer s /\
   document s' = document s /\
   requests (window s') = requests (window s) ++ [POST_reset] /\
   alerts (window s') = alerts (window s) /\
   console (window s') = console (window s) ++ ["Error resetting game:"]).
Proof.
  split.
  - intros ok body s'. subst s'.
    rewrite (complete_fetch _ POST_reset) by apply resetGame_sends.
    unfold resume. rewrite resetGame_resume_resolved.
    repeat split.
  - intros s'. subst s'.
    rewrite (complete_fetch _ POST_reset) by apply resetGame_sends.
    unfold resume. rewrite resetGame_resume_rejected.
    repeat split.
Qed.

(** ** authorize (connectToSpotify) *)

Lemma connectToSpotify_sends s : exec connectToSpotify s = exec (fetch GET_authorize) s.
Proof. reflexivity. Qed.

Lemma connectToSpotify_resume_spec resp accepted s :
  exec (connectToSpotify_resume resp accepted) s
  = if unreadable resp then
      on_window (add_alert "Failed to connect to Spotify. Please try again.")
        (on_window (add_console "Error connecting to Spotify:") s)
    else if truthy (auth_url_of resp) then
      if accepted then on_window (add_navigation (auth_url_of resp)) s
      else on_window (add_alert "Failed to connect to Spotify. Please try again.")
             (on_window (add_console "Error connecting to Spotify:") s)
    else s.
Proof.
  destruct resp as [|ok [data|]]; try reflexivity.
  destruct s as [a p d w].
  unfold connectToSpotify_resume, try_catch, bind, await_fetch, await_json, ret,
    lift, exec, unreadable, auth_url_of, field.
  destruct (prop data "auth_url") as [v|e]; simpl; [|reflexivity].
  destruct (truthy v); [|reflexivity].
  destruct accepted; reflexivity.
Qed.




(** ** startGame and revealCard: the guards *)

Lemma prop_truthy (v : value) (k : string) :
  truthy v = true -> prop v k = Ret (field v k).
Proof. destruct v; simpl; intros H; try discriminate; reflexivity. Qed.

Lemma startGame_unselected s :
  truthy (selectedPlaylist (this s)) = false ->
  startGame s = (Ret tt, on_window (add_alert "Please select a playlist first.") s).
Proof.
  intros H. unfold startGame, bind, gets. simpl. rewrite H. reflexivity.
Qed.

(** C5: in every state in which no playlist is selected (selectedPlaylist
    is null), startGame sends no request (no track fetch), shows the alert
    'Please select a playlist first.', and leaves the active screen and all
    other state unchanged: the alert is the only difference. *)
Theorem startGame_without_selection (s : state) :
  selectedPlaylist (this s) = VNull ->
  let s' := exec startGame s in
  requests (window s') = requests (window s) /\
  pending (window s') = pending (window s) /\
  alerts (window s') = alerts (window s) ++ ["Please select a playlist first."] /\
  currentScreen (this s') = currentScreen (this s) /\
  activeScreen (document s') = activeScreen (document s) /\
  this s' = this s /\
  audioPlayer s' = audioPlayer s /\
  document s' = document s /\
  s' = on_window (add_alert "Please select a playlist first.") s.
Proof.
  intros Hsel s'. subst s'. unfold exec.
  rewrite startGame_unselected by (rewrite Hsel; reflexivity).
  repeat split.
Qed.

(** On a freshly opened page nothing is selected. *)
Lemma startGame_without_selection_witness :
  let s' := exec startGame fresh in
  requests (window s') = requests (window fresh) /\
  pending (window s') = pending (window fresh) /\
  alerts (window s') = alerts (window fresh) ++ ["Please select a playlist first."] /\
  currentScreen (this s') = currentScreen (this fresh) /\
  activeScreen (document s') = activeScreen (document fresh) /\
  this s' = this fresh /\
  audioPlayer s' = audioPlayer fresh /\
  document s' = document fresh /\
  s' = on_window (add_alert "Please select a playlist first.") fresh.
Proof. apply (startGame_without_selection fresh). reflexivity. Defined.

Lemma revealCard_unloaded s :
  truthy (currentTrack (this s)) = false ->
  revealCard s = (Ret tt, on_window (add_alert "No track loaded. Please try again.") s).
Proof.
  intros H. unfold revealCard, bind, gets. simpl. rewrite H. reflexivity.
Qed.

(** C6: in every state in which no track is loaded (currentTrack is null),
    revealCard shows the alert 'No track loaded. Please try again.' and
    does not change the screen: the active screen stays what it was (so it
    does not become 'reveal' unless it already was), and nothing but the
    alert changes. *)
Theorem revealCard_without_track (s : state) :
  currentTrack (this s) = VNull ->
  let s' := exec revealCard s in
  alerts (window s') = alerts (window s) ++ ["No track loaded. Please try again."] /\
  currentScreen (this s') = currentScreen (this s) /\
  activeScreen (document s') = activeScreen (document s) /\
  this s' = this s /\
  document s' = document s /\
  s' = on_window (add_alert "No track loaded. Please try again.") s.
Proof.
  intros Htrack s'. subst s'. unfold exec.
  rewrite revealCard_unloaded by (rewrite Htrack; reflexivity).
  repeat split.
Qed.

(** On a freshly opened page no track is loaded. *)
Lemma revealCard_without_track_witness :
  let s' := exec revealCard fresh in
  alerts (window s') = alerts (window fresh) ++ ["No track loaded. Please try again."] /\
  currentScreen (this s') = currentScreen (this fresh) /\
  activeScreen (document s') = activeScreen (document fresh) /\
  this s' = this fresh /\
  document s' = document fresh /\
  s' = on_window (add_alert "No track loaded. Please try again.") fresh.
Proof. apply (revealCard_without_track fresh). reflexivity. Defined.

(** ** revealCard: what the reveal screen shows *)

Lemma revealCard_loaded s :
  truthy (currentTrack (this s)) = true ->
  let track := currentTrack (this s) in
  let i := currentColorIndex (this s) in
  revealCard s =
  (Ret tt,
   on_this (fun a => set_currentScreen reveal
                       (set_currentColorIndex
                          (Z.rem (i + 1) (Z.of_nat (length cardColors))) a))
     (on_document (fun p =>
        set_activeScreen reveal
          (set_revealCard_className
             ("reveal-card " ++ interpolate (js_index cardColors i))%string
             (set_revealTracksPlayed (tracksPlayed (this s))
                (set_songName (field track "name")
                   (set_releaseYear (js_or (field track "year") (VStr "Unknown"))
                      (set_artistName (field track "artist") p)))))) s)).
Proof.
  intros H track i. subst track i.
  unfold revealCard, bind, gets, lift. cbn beta iota.
  rewrite H. cbn [negb].
  rewrite !(prop_truthy _ _ H).
  reflexivity.
Qed.




(** ** getNextCardColor *)

Lemma getNextCardColor_spec s :
  getNextCardColor s =
  (Ret (js_index cardColors (currentColorIndex (this s))),
   on_this (set_currentColorIndex (Z.rem (currentColorIndex (this s) + 1) 8)) s).
Proof. reflexivity. Qed.

Lemma currentColorIndex_iter (k : nat) (s : state) :
  0 <= currentColorIndex (this s) < 8 ->
  currentColorIndex (this (Nat.iter k (exec getNextCardColor) s))
  = (currentColorIndex (this s) + Z.of_nat k) mod 8.
Proof.
  intros Hi. induction k as [|k IH].
  - simpl. rewrite Z.add_0_r, Z.mod_small; lia.
  - rewrite Nat.iter_succ. unfold exec at 1. rewrite getNextCardColor_spec.
    cbn [snd on_this this set_currentColorIndex currentColorIndex].
    rewrite IH, Z.rem_mod_nonneg.
    + rewrite Zplus_mod_idemp_l. f_equal. lia.
    + pose proof (Z.mod_pos_bound (currentColorIndex (this s) + Z.of_nat k) 8). lia.
    + lia.
Qed.

Lemma getNextCardColor_frame (k : nat) (s : state) :
  Nat.iter k (exec getNextCardColor) s
  = on_this (set_currentColorIndex
               (currentColorIndex (this (Nat.iter k (exec getNextCardColor) s)))) s.
Proof.
  induction k as [|k IH].
  - destruct s as [[] ? ? ?]. reflexivity.
  - rewrite Nat.iter_succ. unfold exec at 1 3. rewrite getNextCardColor_spec.
    cbn [snd]. rewrite IH. reflexivity.
Qed.

(** C7: the color-advance function is a function of the color index alone
    (deterministic).  From any color index (0 to 7) a call returns the color
    at that position of the fixed sequence of 8 colors and moves the index
    to the next position, wrapping from the last to the first, and changes
    nothing else; after k calls the index is (i + k) mod 8, so it is back
    after 8 calls and not before: 8 calls return the controller to the
    state, and so to the color, it started on. *)
Theorem getNextCardColor_cycle (s : state) :
  0 <= currentColorIndex (this s) < 8 ->
  let i := currentColorIndex (this s) in
  let next := exec getNextCardColor in
  (exists c, cardColors !! Z.to_nat i = Some c /\
             fst (getNextCardColor s) = Ret (Some c)) /\
  next s = on_this (set_currentColorIndex ((i + 1) mod 8)) s /\
  (forall k : nat,
     currentColorIndex (this (Nat.iter k next s)) = (i + Z.of_nat k) mod 8) /\
  (forall k : nat, (0 < k < 8)%nat ->
     currentColorIndex (this (Nat.iter k next s)) <> i) /\
  Nat.iter 8 next s = s /\
  fst (getNextCardColor (Nat.iter 8 next s)) = fst (getNextCardColor s).
Proof.
  intros Hi i next. subst next.
  assert (H8 : Nat.iter 8 (exec getNextCardColor) s = s).
  { rewrite getNextCardColor_frame, currentColorIndex_iter by exact Hi.
    change (Z.of_nat 8) with (1 * 8).
    rewrite Z.mod_add, Z.mod_small by lia.
    destruct s as [[] ? ? ?]. reflexivity. }
  repeat split.
  - rewrite getNextCardColor_spec. cbn [fst]. fold i.
    unfold js_index. destruct (Z.ltb_spec i 0) as [Hneg|_]; [lia|].
    destruct (cardColors !! Z.to_nat i) as [c|] eqn:Hc.
    + exists c. split; reflexivity.
    + apply lookup_ge_None in Hc. simpl in Hc. lia.
  - unfold exec. rewrite getNextCardColor_spec. cbn [snd]. fold i.
    rewrite Z.rem_mod_nonneg by lia. reflexivity.
  - intros k. apply currentColorIndex_iter. exact Hi.
  - intros k Hk. rewrite currentColorIndex_iter by exact Hi. fold i.
    intros Heq.
    assert (Hcases : i + Z.of_nat k < 8 \/ 8 <= i + Z.of_nat k < 16) by lia.
    destruct Hcases as [Hlt|Hge].
    + rewrite Z.mod_small in Heq; lia.
    + replace (i + Z.of_nat k) with ((i + Z.of_nat k - 8) + 1 * 8) in Heq by lia.
      rewrite Z.mod_add, Z.mod_small in Heq; lia.
  - exact H8.
  - rewrite H8. reflexivity.
Qed.

(** From the first color, eight calls come back to it. *)
Lemma getNextCardColor_cycle_witness :
  Nat.iter 8 (exec getNextCardColor) playing = playing /\
  fst (getNextCardColor playing) = Ret (Some "card-color-1").
Proof.
  destruct (getNextCardColor_cycle playing) as ((c & Hc & Hret) & _ & _ & _ & H8 & _).
  - vm_compute. split; [discriminate | reflexivity].
  - split; [exact H8|].
    rewrite Hret. vm_compute in Hc. injection Hc as Hc. rewrite <- Hc. reflexivity.
Defined.

(** ** Startup *)

(** C8: at startup, if no session token is present (no session_id in the
    query string and no spotify_session entry in the store) the active
    screen is 'connect' (and no request is sent); if the query string
    carries session_id=abc123 then 'abc123' is stored under
    spotify_session, the active screen becomes 'playlist', and the load of
    the playlists is triggered (GET /api/playlists is sent). *)
Theorem startup_screen
    (doc : page) (player : audio) (store : gmap string string)
    (query : list (string * string)) :
  let s := SongamizerApp doc player store query in
  (first_param "session_id" query = None ->
   store !! "spotify_session" = None ->
   currentScreen (this s) = connect /\
   activeScreen (document s) = connect /\
   requests (window s) = []) /\
  (first_param "session_id" query = Some "abc123" ->
   localStorage (window s) !! "spotify_session" = Some "abc123" /\
   currentScreen (this s) = playlist /\
   activeScreen (document s) = playlist /\
   requests (window s) = [GET_playlists] /\
   pending (window s) = [GET_playlists]).
Proof.
  intros s. subst s.
  unfold SongamizerApp, init, bindEvents, checkAuthStatus, urlParams_get, getItem,
    exec, bind, gets, ret.
  cbn [window search localStorage].
  split.
  - intros Hq Hst. rewrite Hq. cbn [nullable truthy].
    cbn [snd fst window localStorage]. rewrite Hst. repeat split.
  - intros Hq. rewrite Hq. cbn [nullable truthy String.eqb Ascii.eqb Bool.eqb negb].
    repeat split. apply lookup_insert_eq.
Qed.

(** The two scenarios of the specification. *)
Lemma startup_screen_witness :
  currentScreen (this (SongamizerApp blank_page silent_player ∅ [])) = connect /\
  let s := SongamizerApp blank_page silent_player ∅ [("session_id", "abc123")] in
  localStorage (window s) !! "spotify_session" = Some "abc123" /\
  currentScreen (this s) = playlist /\
  requests (window s) = [GET_playlists].
Proof.
  split.
  - apply (startup_screen blank_page silent_player ∅ []); reflexivity.
  - destruct (startup_screen blank_page silent_player ∅ [("session_id", "abc123")])
      as [_ H].
    destruct H as (Hst & Hscr & _ & Hreq & _); [reflexivity|].
    exact (conj Hst (conj Hscr Hreq)).
Defined.

(** ** resetGame and the selection *)

Lemma startGame_selected s :
  truthy (selectedPlaylist (this s)) = true ->
  startGame s =
  (Ret tt,
   on_window (add_request (GET_play_track (field (selectedPlaylist (this s)) "id")))
     (on_this (set_currentScreen game) (on_document (set_activeScreen game) s))).
Proof.
  intros H.
  unfold startGame, playRandomTrack, showScreen, try_catch, bind, gets, modify, lift,
    fetch.
  cbn beta iota. rewrite H. cbn.
  rewrite (prop_truthy _ _ H). reflexivity.
Qed.

(** C10: resetGame leaves selectedPlaylist unchanged, however the request
    settles; the screen is 'playlist' once the request has resolved.  For
    every state with a selected playlist, the same playlist is still
    selected after resetGame, and startGame then goes through without a new
    selection: no alert, the game screen is shown and a track of that
    playlist is requested. *)
Theorem resetGame_keeps_selection (s : state) (resp : response) (played : bool) :
  let s' := complete resetGame resp played s in
  selectedPlaylist (this s') = selectedPlaylist (this s) /\
  match resp with
  | Response _ _ => currentScreen (this s') = playlist
  | Rejected => currentScreen (this s') = currentScreen (this s)
  end /\
  (truthy (selectedPlaylist (this s)) = true ->
   let s'' := exec startGame s' in
   currentScreen (this s'') = game /\
   alerts (window s'') = alerts (window s') /\
   requests (window s'') =
     requests (window s') ++ [GET_play_track (field (selectedPlaylist (this s)) "id")]).
Proof.
  intros s'.
  assert (Hsel : selectedPlaylist (this s') = selectedPlaylist (this s)).
  { subst s'. rewrite (complete_fetch _ POST_reset) by apply resetGame_sends.
    unfold resume. destruct resp as [|ok body].
    - rewrite resetGame_resume_rejected. reflexivity.
    - rewrite resetGame_resume_resolved. reflexivity. }
  split; [exact Hsel|]. split.
  - subst s'. rewrite (complete_fetch _ POST_reset) by apply resetGame_sends.
    unfold resume. destruct resp as [|ok body].
    + rewrite resetGame_resume_rejected. reflexivity.
    + rewrite resetGame_resume_resolved. reflexivity.
  - intros Htruthy s''. subst s''. unfold exec.
    rewrite startGame_selected by (rewrite Hsel; exact Htruthy).
    rewrite Hsel. repeat split.
Qed.

(** A reset after the first track, answered by a response without a body:
    the playlist is still selected and the game starts again. *)
Lemma resetGame_keeps_selection_witness :
  let s' := complete resetGame (Response true None) false playing in
  selectedPlaylist (this s') = party_mix /\
  currentScreen (this s') = playlist /\
  currentScreen (this (exec startGame s')) = game.
Proof.
  destruct (resetGame_keeps_selection playing (Response true None) false)
    as (Hsel & Hscr & Hstart).
  destruct Hstart as (Hgame & _); [reflexivity|].
  exact (conj Hsel (conj Hscr Hgame)).
Defined.

(** ** What a computation leaves unchanged *)

Section Keeps.
Context {B : Type} (f : state -> B).

Lemma keeps_ret {A} (a : A) : keeps f (ret a).
Proof. intros s. reflexivity. Qed.

Lemma keeps_throw {A} (e : error) : keeps f (@throw A e).
Proof. intros s. reflexivity. Qed.

Lemma keeps_lift {A} (r : result A) : keeps f (lift r).
Proof. intros s. reflexivity. Qed.

Lemma keeps_gets {A} (g : state -> A) : keeps f (gets g).
Proof. intros s. reflexivity. Qed.

Lemma keeps_modify (g : state -> state) :
  (forall s, f (g s) = f s) -> keeps f (modify g).
Proof. intros H s. apply H. Qed.

Lemma keeps_bind {A C} (m : M A) (k : A -> M C) :
  keeps f m -> (forall a, keeps f (k a)) -> keeps f (bind m k).
Proof.
  intros Hm Hk s. unfold bind. specialize (Hm s).
  destruct (m s) as [[a|e] s1]; simpl in *.
  - rewrite Hk. exact Hm.
  - exact Hm.
Qed.

Lemma keeps_try_catch {A} (m h : M A) :
  keeps f m -> keeps f h -> keeps f (try_catch m h).
Proof.
  intros Hm Hh s. unfold try_catch. specialize (Hm s).
  destruct (m s) as [[a|e] s1]; simpl in *.
  - exact Hm.
  - rewrite Hh. exact Hm.
Qed.

Lemma keeps_then_bubble (m1 m2 : M unit) :
  keeps f m1 -> keeps f m2 -> keeps f (then_bubble m1 m2).
Proof.
  intros H1 H2 s. unfold then_bubble. specialize (H1 s).
  destruct (m1 s) as [[a|e] s1]; simpl in *; rewrite H2; exact H1.
Qed.

Lemma keeps_forEach {A} (xs : list A) (g : A -> M unit) :
  (forall x, keeps f (g x)) -> keeps f (forEach xs g).
Proof.
  intros Hg. induction xs as [|x xs IH]; simpl.
  - apply keeps_ret.
  - apply keeps_bind; [apply Hg | intros _; exact IH].
Qed.
End Keeps.

Create HintDb js.
#[local] Hint Unfold
  showScreen updateTrackCounter getNextCardColor
  loadPlaylists loadPlaylists_catch loadPlaylists_resume renderPlaylists renderItem
  connectToSpotify connectToSpotify_catch connectToSpotify_resume
  selectPlaylist addPlaylist addPlaylist_catch addPlaylist_resume
  removePlaylist removePlaylist_catch removePlaylist_resume
  playRandomTrack playRandomTrack_catch playRandomTrack_resume audioPlayer_play
  startGame revealCard playNextSong openInSpotify
  resetGame resetGame_catch resetGame_resume inline_onclick set_location_href
  alert console_error console_log fetch await_fetch await_json when : js.

Ltac keeps_step :=
  first
    [ apply keeps_ret
    | apply keeps_throw
    | apply keeps_lift
    | apply keeps_gets
    | apply keeps_modify; intros ?; reflexivity
    | apply keeps_bind; [|intros ?]
    | apply keeps_try_catch
    | apply keeps_then_bubble
    | apply keeps_forEach; intros ?
    | match goal with
      | |- keeps _ (if ?b then _ else _) => destruct b
      | |- keeps _ (match ?x with _ => _ end) => destruct x
      end ].

Ltac keeps_tac := autounfold with js; repeat keeps_step.

Lemma quiet_keeps_shown e : quiet e = true -> keeps shown (on e).
Proof. destruct e; simpl; intros H; try discriminate; keeps_tac. Qed.

Lemma click_keeps_counter e :
  match e with Settled _ _ _ => False | _ => True end -> keeps counter (on e).
Proof. destruct e; simpl; intros H; try contradiction; keeps_tac. Qed.

Lemma select_keeps_screens e :
  match e with
  | Click_playlistItem _ | Click_playlistRemove _ _ _ => True
  | _ => False
  end -> keeps screens (on e).
Proof. destruct e; simpl; intros H; try contradiction; keeps_tac. Qed.

Lemma playRandomTrack_keeps_shown : keeps shown playRandomTrack.
Proof. keeps_tac. Qed.

Lemma playRandomTrack_resume_keeps_shown resp played :
  keeps shown (playRandomTrack_resume resp played).
Proof. keeps_tac. Qed.

Lemma background_keeps_shown r resp played :
  background r = true -> keeps shown (resume r resp played).
Proof. destruct r; simpl; intros H; try discriminate; keeps_tac. Qed.

Lemma background_keeps_counter r resp played :
  background r = true -> keeps counter (resume r resp played).
Proof. destruct r; simpl; intros H; try discriminate; keeps_tac. Qed.

(** ** The play counter *)

Lemma handle_settled i resp played s r :
  pending (window s) !! i = Some r ->
  handle (Settled i resp played) s
  = exec (resume r resp played)
      (on_window (set_pending (delete i (pending (window s)))) s).
Proof.
  intros H. unfold handle, exec, on, bind, gets. cbn beta iota. rewrite H. reflexivity.
Qed.

Lemma handle_settled_none i resp played s :
  pending (window s) !! i = None -> handle (Settled i resp played) s = s.
Proof.
  intros H. unfold handle, exec, on, bind, gets. cbn beta iota. rewrite H. reflexivity.
Qed.

Lemma playRandomTrack_resume_counter resp played s :
  counter (exec (playRandomTrack_resume resp played) s)
  = if truthy (track_of resp) then counter s + 1 else counter s.
Proof.
  destruct resp as [|ok [data|]]; try reflexivity.
  unfold playRandomTrack_resume, track_of, field, exec, try_catch, bind,
    await_fetch, await_json, ret, lift, when.
  destruct (prop data "track") as [track|e]; [|reflexivity].
  destruct (truthy track) eqn:Htrack; [|reflexivity].
  cbn -[prop truthy].
  destruct (prop track "stream_url") as [url|e]; [|reflexivity].
  destruct (truthy url); [|reflexivity].
  destruct played; reflexivity.
Qed.

Lemma handle_counter e s :
  counter (handle e s)
  = if fetched_track e s then counter s + 1
    else if reset_resolved e s then 0
    else counter s.
Proof.
  destruct e as [| | | | | | | | | | |i resp played];
    try (simpl; apply click_keeps_counter; exact I).
  unfold fetched_track, reset_resolved.
  destruct (pending (window s) !! i) as [r|] eqn:Hr.
  - rewrite (handle_settled _ _ _ _ _ Hr).
    destruct r;
      try (unfold exec; rewrite background_keeps_counter by reflexivity;
           destruct resp; reflexivity).
    + unfold resume. rewrite playRandomTrack_resume_counter.
      destruct (truthy (track_of resp)); destruct resp; reflexivity.
    + destruct resp; reflexivity.
  - rewrite (handle_settled_none _ _ _ _ Hr). destruct resp; reflexivity.
Qed.

(** One track played, and a reset whose request the network rejects. *)
Lemma reachable_playing : reachable playing.
Proof.
  unfold playing, playing_with, to_first_track. cbn [fold_left].
  repeat (apply reachable_step; [|reflexivity]).
  apply reachable_new.
Qed.

(** C3, as stated, fails in its last part: on the page [playing] the
    counter is 1, and a resetGame whose request is rejected by the network
    leaves it at 1. *)
Lemma resetGame_rejected_keeps_counter :
  reachable playing /\
  tracksPlayed (this playing) = 1 /\
  tracksPlayed (this (complete resetGame Rejected false playing)) = 1 /\
  tracksPlayed (this (complete resetGame Rejected false playing)) <> 0.
Proof.
  split; [exact reachable_playing|].
  vm_compute. repeat split; try reflexivity; discriminate.
Qed.

(** C3 (amended): the play counter starts at 0; it increases by exactly 1
    on each successful track fetch (a track request settling with a
    response that contains a track); the only event that can decrease it is
    the resolution of a reset request, which sets it to exactly 0; every
    other event leaves it unchanged.  resetGame sets it to exactly 0
    regardless of its prior value when its request resolves (with any
    status), and leaves it as it is when the request is rejected. *)
Theorem play_counter
    (doc : page) (player : audio) (store : gmap string string)
    (query : list (string * string)) (s : state) (e : event) (played : bool) :
  tracksPlayed (this (SongamizerApp doc player store query)) = 0 /\
  (fetched_track e s = true ->
   tracksPlayed (this (handle e s)) = tracksPlayed (this s) + 1) /\
  (reset_resolved e s = false ->
   tracksPlayed (this s) <= tracksPlayed (this (handle e s))) /\
  (reset_resolved e s = true -> tracksPlayed (this (handle e s)) = 0) /\
  (fetched_track e s = false -> reset_resolved e s = false ->
   tracksPlayed (this (handle e s)) = tracksPlayed (this s)) /\
  (forall ok body,
     tracksPlayed (this (complete resetGame (Response ok body) played s)) = 0) /\
  tracksPlayed (this (complete resetGame Rejected played s)) = tracksPlayed (this s).
Proof.
  pose proof (handle_counter e s) as Hc. unfold counter in Hc.
  split; [|split; [|split; [|split; [|split; [|split]]]]].
  - unfold SongamizerApp, exec.
    change (tracksPlayed (this (snd (init (mkState (mkApp connect VNull VNull 0 0)
             player doc (mkEnv store query [] [] [] [] [] [])))))) with
      (counter (snd (init (mkState (mkApp connect VNull VNull 0 0)
             player doc (mkEnv store query [] [] [] [] [] []))))).
    assert (Hinit : keeps counter init).
    { unfold init, bindEvents, checkAuthStatus, urlParams_get, getItem, setItem.
      keeps_tac. }
    rewrite Hinit. reflexivity.
  - intros Hf. rewrite Hc, Hf. reflexivity.
  - intros Hr. rewrite Hc, Hr. destruct (fetched_track e s); lia.
  - intros Hr. rewrite Hc, Hr.
    destruct (fetched_track e s) eqn:Hf; [|reflexivity].
    exfalso. destruct e; try discriminate.
    unfold fetched_track, reset_resolved in *.
    destruct resp; try discriminate.
    destruct (pending (window s) !! i) as [[]|]; discriminate.
  - intros Hf Hr. rewrite Hc, Hf, Hr. reflexivity.
  - intros ok body.
    rewrite (complete_fetch _ POST_reset) by apply resetGame_sends.
    unfold resume. rewrite resetGame_resume_resolved. reflexivity.
  - rewrite (complete_fetch _ POST_reset) by apply resetGame_sends.
    unfold resume. rewrite resetGame_resume_rejected. reflexivity.
Qed.

(** The first track of a game arrives: from 0 to 1. *)
Lemma play_counter_witness :
  let e := Settled 0 (Response true (Some (VObj [("track", track_XY)]))) false in
  tracksPlayed (this (SongamizerApp blank_page silent_player ∅ [])) = 0 /\
  tracksPlayed (this (handle e started)) = tracksPlayed (this started) + 1 /\
  tracksPlayed (this started) <= tracksPlayed (this (handle e started)).
Proof.
  intros e.
  destruct (play_counter blank_page silent_player ∅ [] started e false)
    as (Hnew & Hfetch & Hmono & _).
  split; [exact Hnew|]. split.
  - apply Hfetch. vm_compute. reflexivity.
  - apply Hmono. vm_compute. reflexivity.
Defined.

(** ** The selection invariant *)



Lemma consistent_off_game s :
  activeScreen (document s) = currentScreen (this s) ->
  currentScreen (this s) = playlist \/ currentScreen (this s) = connect ->
  consistent s.
Proof.
  intros Hact Hscr. split; [exact Hact|].
  intros [Hg|Hr]; destruct Hscr as [Hp|Hc]; congruence.
Qed.



Lemma new_consistent doc player store query :
  consistent (SongamizerApp doc player store query).
Proof.
  unfold SongamizerApp, init, bindEvents, checkAuthStatus, urlParams_get, getItem,
    exec, bind, gets, ret.
  cbn [window search localStorage].
  destruct (truthy (nullable (first_param "session_id" query))).
  - apply consistent_off_game; cbn; auto.
  - cbn [snd fst window localStorage].
    destruct (truthy (nullable (store !! "spotify_session")));
      apply consistent_off_game; cbn; auto.
Qed.

Lemma playNextSong_shown s :
  shown (exec playNextSong s) = (game, game, selectedPlaylist (this s)).
Proof.
  unfold playNextSong, showScreen, exec, bind, modify. cbn beta iota.
  rewrite playRandomTrack_keeps_shown. reflexivity.
Qed.







(** ** The color index stays in range *)




(** * Further properties of the controller *)

(** ** Rendering the playlists *)

Lemma prop_not_nullish (v : value) (k : string) :
  nullish v = false -> prop v k = Ret (field v k).
Proof. destruct v; simpl; intros H; try discriminate; reflexivity. Qed.

Lemma prop_nullish (v : value) (k : string) :
  nullish v = true -> prop v k = Throw TypeError.
Proof. destruct v; simpl; intros H; try discriminate; reflexivity. Qed.

Lemma truthy_not_nullish v : truthy v = true -> nullish v = false.
Proof. destruct v; simpl; intros H; try discriminate; reflexivity. Qed.


Lemma on_document_same (f : page -> page) s :
  f (document s) = document s -> on_document f s = s.
Proof. intros H. destruct s as [a au d w]. unfold on_document. simpl in *. rewrite H. reflexivity. Qed.

Lemma forEach_renderItem xs s :
  forEach xs renderItem s =
  (if forallb (fun x => negb (nullish x)) xs then Ret tt else Throw TypeError,
   on_document
     (fun p => set_playlistList (playlistList p ++ unselected (renderable xs)) p) s).
Proof.
  revert s. induction xs as [|x xs IH]; intros s.
  - simpl. unfold ret. f_equal. symmetry. apply on_document_same.
    destruct (document s). unfold set_playlistList. simpl. rewrite app_nil_r. reflexivity.
  - cbn [forEach forallb renderable]. unfold bind at 1.
    destruct (nullish x) eqn:Hx.
    + unfold renderItem, bind, lift. rewrite (prop_nullish _ _ Hx). simpl.
      f_equal. symmetry. apply on_document_same.
      destruct (document s). unfold set_playlistList. simpl. rewrite app_nil_r. reflexivity.
    + unfold renderItem at 1, bind, lift, modify.
      rewrite !(prop_not_nullish _ _ Hx). cbn [negb andb].
      rewrite IH. f_equal.
      unfold on_document, set_playlistList, unselected. cbn.
      rewrite <- app_assoc. reflexivity.
Qed.

Lemma renderPlaylists_array xs s :
  renderPlaylists (VArr xs) s =
  (if forallb (fun x => negb (nullish x)) xs then Ret tt else Throw TypeError,
   on_document (set_playlistList (unselected (renderable xs))) s).
Proof.
  unfold renderPlaylists, bind, modify. cbn beta iota.
  rewrite forEach_renderItem. reflexivity.
Qed.


(** What the settling of a playlist request does, case by case. *)
Lemma loadPlaylists_resume_spec resp s :
  exec (loadPlaylists_resume resp) s =
  match playlists_of resp with
  | None => on_window (add_console "Error loading playlists:") s
  | Some (VArr xs) =>
      let s1 := on_document (set_playlistList (unselected (renderable xs))) s in
      if forallb (fun x => negb (nullish x)) xs then s1
      else on_window (add_console "Error loading playlists:") s1
  | Some v =>
      if truthy v
      then on_window (add_console "Error loading playlists:")
             (on_document (set_playlistList []) s)
      else s
  end.
Proof.
  destruct resp as [|ok [data|]]; try reflexivity.
  unfold playlists_of, loadPlaylists_resume, exec, try_catch, bind, await_fetch,
    await_json, ret, lift.
  destruct (prop data "playlists") as [v|e]; [|reflexivity].
  destruct v as [| |b|f|str|xs|fs]; try reflexivity.
  - destruct b; reflexivity.
  - cbn -[PrimFloat.eqb PrimFloat.is_nan]. destruct (truthy (VNum f)) eqn:Hf;
      cbn -[PrimFloat.eqb PrimFloat.is_nan] in Hf |- *; rewrite Hf; reflexivity.
  - cbn. destruct (negb (String.eqb str "")); reflexivity.
  - cbn [truthy when]. rewrite renderPlaylists_array.
    destruct (forallb _ xs); reflexivity.
Qed.



(** X2: a failed refresh is silent and leaves the list as it is.  When the
    playlist request is rejected, or its body is not JSON or is the JSON
    null, the error is logged and nothing else changes; when the body has
    no (truthy) [playlists], nothing changes at all.  In no case is an
    alert shown. *)
Theorem loadPlaylists_failure_is_silent (s : state) (resp : response) :
  let s' := exec (loadPlaylists_resume resp) s in
  match playlists_of resp with
  | None => s' = on_window (add_console "Error loading playlists:") s
  | Some v => truthy v = false -> s' = s
  end /\
  alerts (window s') = alerts (window s) /\
  this s' = this s /\
  requests (window s') = requests (window s).
Proof.
  intros s'. subst s'. rewrite loadPlaylists_resume_spec.
  destruct (playlists_of resp) as [v|]; [|repeat split].
  destruct v as [| |b|f|str|xs|fs]; cbn zeta.
  6: { destruct (forallb _ xs); repeat split; intros H; cbn in H; discriminate. }
  all: match goal with |- context [truthy ?x] => destruct (truthy x) end;
    repeat split; intros; try discriminate; reflexivity.
Qed.

(** A body without [playlists] on the running game: nothing changes. *)
Lemma loadPlaylists_failure_is_silent_witness :
  exec (loadPlaylists_resume (Response true (Some (VObj [])))) playing = playing.
Proof.
  destruct (loadPlaylists_failure_is_silent playing (Response true (Some (VObj []))))
    as (H & _).
  apply H. reflexivity.
Defined.

(** X3: a body whose [playlists] is truthy but not an array (an object, a
    string, a number, [true]) empties the rendered list before the call of
    [forEach] fails; the error is logged only. *)
Theorem loadPlaylists_non_array_empties_list
    (s : state) (ok : bool) (data v : value) :
  prop data "playlists" = Ret v ->
  truthy v = true ->
  match v with VArr _ => False | _ => True end ->
  let s' := exec (loadPlaylists_resume (Response ok (Some data))) s in
  playlistList (document s') = [] /\
  console (window s') = console (window s) ++ ["Error loading playlists:"] /\
  alerts (window s') = alerts (window s).
Proof.
  intros Hp Ht Hv s'. subst s'. rewrite loadPlaylists_resume_spec.
  unfold playlists_of. rewrite Hp.
  destruct v; try contradiction; rewrite Ht; repeat split.
Qed.

Lemma loadPlaylists_non_array_empties_list_witness :
  let data := VObj [("playlists", VObj [("0", party_mix)])] in
  playlistList
    (document (exec (loadPlaylists_resume (Response true (Some data))) playing)) = [].
Proof.
  apply (loadPlaylists_non_array_empties_list playing true
           (VObj [("playlists", VObj [("0", party_mix)])])
           (VObj [("0", party_mix)])).
  - reflexivity.
  - reflexivity.
  - exact I.
Defined.

(** ** Selecting a playlist *)

Lemma lookup_selected (l : list (value * bool)) (i j : nat) :
  alter (fun it => (fst it, true)) i (map (fun it => (fst it, false)) l) !! j
  = (fun it => (fst it, Nat.eqb j i)) <$> l !! j.
Proof.
  revert i j. induction l as [|[p b] l IH]; intros i j.
  - destruct i, j; reflexivity.
  - destruct i as [|i], j as [|j]; try reflexivity.
    + cbn. clear IH. revert j. induction l as [|[q c] l IH]; intros j.
      * reflexivity.
      * destruct j as [|j]; [reflexivity|]. cbn. apply IH.
    + cbn. apply IH.
Qed.

Lemma select_twice (l : list (value * bool)) (i : nat) :
  let select l := alter (fun it => (fst it, true)) i (map (fun it => (fst it, false)) l) in
  select (select l) = select l.
Proof.
  intros select. subst select. cbn beta. apply list_eq. intros j.
  rewrite !lookup_selected.
  destruct (l !! j) as [[p b]|]; reflexivity.
Qed.

Lemma click_playlistItem s i p b :
  playlistList (document s) !! i = Some (p, b) ->
  handle (Click_playlistItem i) s =
  on_document (fun d =>
      set_startPlayingBtn_disabled false
        (set_playlistList
           (alter (fun it => (fst it, true)) i
              (map (fun it => (fst it, false)) (playlistList d))) d))
    (on_this (set_selectedPlaylist p) s).
Proof.
  intros H. unfold handle, exec, on, bind, gets. cbn beta iota. rewrite H.
  reflexivity.
Qed.

(** X4: a click on the rendered playlist at position [i] makes that
    playlist the selected one, marks the item at [i] and no other item as
    selected, keeps the rendered playlists and their order, and enables the
    start button; the screen, the track and the counter are untouched, and
    clicking the same item again changes nothing. *)
Theorem selectPlaylist_marks_exactly_one
    (s : state) (i : nat) (p : value) (b : bool) :
  playlistList (document s) !! i = Some (p, b) ->
  let s' := handle (Click_playlistItem i) s in
  selectedPlaylist (this s') = p /\
  (forall j, playlistList (document s') !! j
             = (fun it => (fst it, Nat.eqb j i)) <$> playlistList (document s) !! j) /\
  map fst (playlistList (document s')) = map fst (playlistList (document s)) /\
  startPlayingBtn_disabled (document s') = false /\
  currentScreen (this s') = currentScreen (this s) /\
  currentTrack (this s') = currentTrack (this s) /\
  tracksPlayed (this s') = tracksPlayed (this s) /\
  window s' = window s /\
  handle (Click_playlistItem i) s' = s'.
Proof.
  intros H s'.
  assert (Hs' : s' = on_document (fun d =>
      set_startPlayingBtn_disabled false
        (set_playlistList
           (alter (fun it => (fst it, true)) i
              (map (fun it => (fst it, false)) (playlistList d))) d))
    (on_this (set_selectedPlaylist p) s)) by (apply (click_playlistItem s i p b H)).
  assert (Hlook : forall j, playlistList (document s') !! j
             = (fun it => (fst it, Nat.eqb j i)) <$> playlistList (document s) !! j).
  { intros j. rewrite Hs'. cbn. apply lookup_selected. }
  split; [rewrite Hs'; reflexivity|].
  split; [exact Hlook|].
  split.
  { apply list_eq. intros j. rewrite !list_lookup_fmap, Hlook.
    destruct (playlistList (document s) !! j) as [[q c]|]; reflexivity. }
  split; [rewrite Hs'; reflexivity|].
  split; [rewrite Hs'; reflexivity|].
  split; [rewrite Hs'; reflexivity|].
  split; [rewrite Hs'; reflexivity|].
  split; [rewrite Hs'; reflexivity|].
  assert (Hi : playlistList (document s') !! i = Some (p, true)).
  { rewrite Hlook, H. cbn. rewrite Nat.eqb_refl. reflexivity. }
  rewrite (click_playlistItem s' i p true Hi).
  rewrite Hs' at 2. rewrite Hs' at 1.
  destruct s as [a au d w]. unfold on_document, on_this. cbn.
  rewrite (select_twice (playlistList d) i). reflexivity.
Qed.

(** The playlist of the running game is clicked again. *)
Lemma selectPlaylist_marks_exactly_one_witness :
  let s' := handle (Click_playlistItem 0) playing in
  selectedPlaylist (this s') = party_mix /\
  handle (Click_playlistItem 0) s' = s'.
Proof.
  destruct (selectPlaylist_marks_exactly_one playing 0 party_mix true)
    as (Hsel & _ & _ & _ & _ & _ & _ & _ & Hidem).
  - reflexivity.
  - split; [exact Hsel | exact Hidem].
Defined.

Lemma unselected_none_selected xs :
  Forall (fun it : value * bool => snd it = false) (unselected xs).
Proof.
  induction xs as [|x xs IH]; constructor; [reflexivity | exact IH].
Qed.

(** X5: a refresh of the list does not touch the selection of the
    controller.  After a playlist request has settled with an array, no
    rendered item is marked selected, yet selectedPlaylist is what it was
    (also when that playlist is no longer in the list, for instance after
    its removal) and the start button keeps its state: startGame still asks
    for a track of the playlist selected before. *)
Theorem refresh_keeps_stale_selection
    (s : state) (ok : bool) (data : value) (xs : list value) :
  prop data "playlists" = Ret (VArr xs) ->
  truthy (selectedPlaylist (this s)) = true ->
  let s' := exec (loadPlaylists_resume (Response ok (Some data))) s in
  Forall (fun it => snd it = false) (playlistList (document s')) /\
  selectedPlaylist (this s') = selectedPlaylist (this s) /\
  startPlayingBtn_disabled (document s') = startPlayingBtn_disabled (document s) /\
  let s'' := exec startGame s' in
  currentScreen (this s'') = game /\
  requests (window s'') =
    requests (window s') ++ [GET_play_track (field (selectedPlaylist (this s)) "id")].
Proof.
  intros Hp Hsel s'.
  assert (Hs' : playlistList (document s') = unselected (renderable xs) /\
                this s' = this s /\
                startPlayingBtn_disabled (document s')
                = startPlayingBtn_disabled (document s)).
  { subst s'. rewrite loadPlaylists_resume_spec. unfold playlists_of. rewrite Hp.
    cbn zeta. destruct (forallb _ xs); repeat split. }
  destruct Hs' as (Hl & Hthis & Hbtn).
  split; [rewrite Hl; apply unselected_none_selected|].
  split; [rewrite Hthis; reflexivity|].
  split; [exact Hbtn|].
  intros s''. subst s''. unfold exec.
  rewrite startGame_selected by (rewrite Hthis; exact Hsel).
  rewrite Hthis. repeat split.
Qed.

(** The selected playlist disappears from the list; the game starts on it. *)
Lemma refresh_keeps_stale_selection_witness :
  let s' := exec (loadPlaylists_resume
                    (Response true (Some (VObj [("playlists", VArr [])])))) playing in
  playlistList (document s') = [] /\
  selectedPlaylist (this s') = party_mix /\
  currentScreen (this (exec startGame s')) = game.
Proof.
  destruct (refresh_keeps_stale_selection playing true
              (VObj [("playlists", VArr [])]) []) as (_ & Hsel & _ & Hgame & _).
  - reflexivity.
  - reflexivity.
  - split; [reflexivity|]. split; [exact Hsel | exact Hgame].
Defined.

(** ** Adding and removing playlists *)

Lemma addPlaylist_sends url s :
  url <> "" ->
  exec (addPlaylist (Some url)) s = exec (fetch (POST_playlists url)) s.
Proof.
  intros H. unfold addPlaylist. cbn [nullable truthy].
  apply String.eqb_neq in H. rewrite H. reflexivity.
Qed.

(** X6: addPlaylist.  A cancelled or empty prompt does nothing at all.
    With a URL, one POST is sent; when it resolves with a 2xx status the
    list is asked for again (one GET) and nothing is shown; with another
    status the user is told to check the URL and no reload is asked for;
    when the request is rejected the error is logged and the user is told
    to try again.  The rendered list itself is not touched by any of
    these. *)
Theorem addPlaylist_outcomes (s : state) (url : string) (played : bool) :
  url <> "" ->
  exec (addPlaylist None) s = s /\
  exec (addPlaylist (Some "")) s = s /\
  (forall body,
     let s' := complete (addPlaylist (Some url)) (Response true body) played s in
     requests (window s') = requests (window s) ++ [POST_playlists url; GET_playlists] /\
     pending (window s') = pending (window s) ++ [GET_playlists] /\
     alerts (window s') = alerts (window s) /\
     console (window s') = console (window s) /\
     document s' = document s /\ this s' = this s) /\
  (forall body,
     let s' := complete (addPlaylist (Some url)) (Response false body) played s in
     requests (window s') = requests (window s) ++ [POST_playlists url] /\
     pending (window s') = pending (window s) /\
     alerts (window s') = alerts (window s)
       ++ ["Failed to add playlist. Please check the URL and try again."] /\
     console (window s') = console (window s) /\
     document s' = document s /\ this s' = this s) /\
  (let s' := complete (addPlaylist (Some url)) Rejected played s in
   requests (window s') = requests (window s) ++ [POST_playlists url] /\
   pending (window s') = pending (window s) /\
   alerts (window s') = alerts (window s)
     ++ ["Failed to add playlist. Please try again."] /\
   console (window s') = console (window s) ++ ["Error adding playlist:"] /\
   document s' = document s /\ this s' = this s).
Proof.
  intros Hurl.
  split; [destruct s as [a au d w]; reflexivity|].
  split; [destruct s as [a au d w]; reflexivity|].
  split; [|split].
  - intros body s'. subst s'.
    rewrite (complete_fetch _ (POST_playlists url)) by (apply addPlaylist_sends, Hurl).
    cbn. rewrite <- app_assoc. repeat split.
  - intros body s'. subst s'.
    rewrite (complete_fetch _ (POST_playlists url)) by (apply addPlaylist_sends, Hurl).
    repeat split.
  - intros s'. subst s'.
    rewrite (complete_fetch _ (POST_playlists url)) by (apply addPlaylist_sends, Hurl).
    repeat split.
Qed.

(** A playlist is added on the running game and the server refuses it. *)
Lemma addPlaylist_outcomes_witness :
  let s' := complete (addPlaylist (Some "https://open.spotify.com/playlist/1"))
              (Response false None) false playing in
  alerts (window s') = alerts (window playing)
    ++ ["Failed to add playlist. Please check the URL and try again."] /\
  pending (window s') = pending (window playing).
Proof.
  destruct (addPlaylist_outcomes playing "https://open.spotify.com/playlist/1" false)
    as (_ & _ & _ & Hno & _).
  - discriminate.
  - destruct (Hno None) as (_ & Hp & Ha & _). split; [exact Ha | exact Hp].
Defined.

Lemma removePlaylist_sends id s :
  exec (removePlaylist id) s = exec (fetch (DELETE_playlist id)) s.
Proof. reflexivity. Qed.

(** X7: removePlaylist never tells the user anything.  One DELETE is sent;
    when it resolves with a 2xx status the list is asked for again; with
    another status nothing happens at all (no alert, no log, no reload);
    when it is rejected the error is logged only.  The rendered list stays
    as it is until a reload settles. *)
Theorem removePlaylist_outcomes (s : state) (id : value) (played : bool) :
  (forall body,
     let s' := complete (removePlaylist id) (Response true body) played s in
     requests (window s') = requests (window s) ++ [DELETE_playlist id; GET_playlists] /\
     pending (window s') = pending (window s) ++ [GET_playlists] /\
     alerts (window s') = alerts (window s) /\
     console (window s') = console (window s) /\
     document s' = document s /\ this s' = this s) /\
  (forall body,
     let s' := complete (removePlaylist id) (Response false body) played s in
     requests (window s') = requests (window s) ++ [DELETE_playlist id] /\
     pending (window s') = pending (window s) /\
     alerts (window s') = alerts (window s) /\
     console (window s') = console (window s) /\
     document s' = document s /\ this s' = this s) /\
  (let s' := complete (removePlaylist id) Rejected played s in
   requests (window s') = requests (window s) ++ [DELETE_playlist id] /\
   pending (window s') = pending (window s) /\
   alerts (window s') = alerts (window s) /\
   console (window s') = console (window s) ++ ["Error removing playlist:"] /\
   document s' = document s /\ this s' = this s).
Proof.
  split; [|split].
  - intros body s'. subst s'.
    rewrite (complete_fetch _ (DELETE_playlist id)) by apply removePlaylist_sends.
    cbn. rewrite <- app_assoc. repeat split.
  - intros body s'. subst s'.
    rewrite (complete_fetch _ (DELETE_playlist id)) by apply removePlaylist_sends.
    repeat split.
  - intros s'. subst s'.
    rewrite (complete_fetch _ (DELETE_playlist id)) by apply removePlaylist_sends.
    repeat split.
Qed.

Lemma click_playlistRemove s i p b on_icon otherwise :
  playlistList (document s) !! i = Some (p, b) ->
  plain (field p "id") = true ->
  on (Click_playlistRemove i on_icon otherwise) s =
  (Ret tt,
   let s1 := exec (fetch (DELETE_playlist (field p "id"))) s in
   if on_icon then handle (Click_playlistItem i) s1 else s1).
Proof.
  intros H Hp.
  destruct on_icon.
  - cbv zeta. rewrite (click_playlistItem _ i p b) by exact H.
    unfold on, bind, gets, then_bubble, inline_onclick. cbn beta iota.
    rewrite H, Hp. reflexivity.
  - unfold on, bind, gets, then_bubble, inline_onclick. cbn beta iota.
    rewrite H, Hp. reflexivity.
Qed.

Lemma click_playlistRemove_reports s i p b on_icon :
  playlistList (document s) !! i = Some (p, b) ->
  plain (field p "id") = false ->
  on (Click_playlistRemove i on_icon Reports) s =
  (Throw SyntaxError, if on_icon then handle (Click_playlistItem i) s else s).
Proof.
  intros H Hp.
  destruct on_icon.
  - rewrite (click_playlistItem _ i p b) by exact H.
    unfold on, bind, gets, then_bubble, inline_onclick. cbn beta iota.
    rewrite H, Hp. reflexivity.
  - unfold on, bind, gets, then_bubble, inline_onclick. cbn beta iota.
    rewrite H, Hp. reflexivity.
Qed.

(** X8: a click on the remove button of a rendered playlist.  When the id
    of the playlist is plain (its string form is made of printable ASCII
    characters other than the quotes, the backslash and the ampersand),
    the DELETE for that id is sent; when
    the click lands on the button itself nothing else happens, and when it
    lands on the icon inside the button, whose classes do not include
    [playlist-remove], the listener of the item runs as well and the
    playlist being removed becomes the selected one.  When the id is not
    plain and the source of the inline handler does not parse (an id such
    as a'b), no request is sent and the SyntaxError is left uncaught; a
    click on the icon selects the playlist all the same. *)
Theorem click_remove_on_icon_selects
    (s : state) (i : nat) (p : value) (b : bool) (otherwise : inline) :
  playlistList (document s) !! i = Some (p, b) ->
  (plain (field p "id") = true ->
   handle (Click_playlistRemove i false otherwise) s
     = exec (fetch (DELETE_playlist (field p "id"))) s /\
   handle (Click_playlistRemove i true otherwise) s
     = handle (Click_playlistItem i) (exec (fetch (DELETE_playlist (field p "id"))) s) /\
   selectedPlaylist (this (handle (Click_playlistRemove i true otherwise) s)) = p /\
   selectedPlaylist (this (handle (Click_playlistRemove i false otherwise) s))
     = selectedPlaylist (this s)) /\
  (plain (field p "id") = false ->
   forall on_icon,
     let s' := handle (Click_playlistRemove i on_icon Reports) s in
     fst (on (Click_playlistRemove i on_icon Reports) s) = Throw SyntaxError /\
     requests (window s') = requests (window s) /\
     selectedPlaylist (this s') = (if on_icon then p else selectedPlaylist (this s))).
Proof.
  intros H. split.
  - intros Hp.
    assert (Hoff : handle (Click_playlistRemove i false otherwise) s
                   = exec (fetch (DELETE_playlist (field p "id"))) s).
    { unfold handle, exec at 1.
      rewrite (click_playlistRemove s i p b false otherwise H Hp). reflexivity. }
    assert (Hon : handle (Click_playlistRemove i true otherwise) s
                  = handle (Click_playlistItem i)
                      (exec (fetch (DELETE_playlist (field p "id"))) s)).
    { unfold handle at 1, exec at 1.
      rewrite (click_playlistRemove s i p b true otherwise H Hp). reflexivity. }
    split; [exact Hoff|]. split; [exact Hon|]. split.
    + rewrite Hon. rewrite (click_playlistItem _ i p b) by exact H. reflexivity.
    + rewrite Hoff. reflexivity.
  - intros Hp on_icon s'. subst s'. unfold handle, exec.
    rewrite (click_playlistRemove_reports s i p b on_icon H Hp). cbn [fst snd].
    split; [reflexivity|].
    destruct on_icon; [|split; reflexivity].
    rewrite (click_playlistItem s i p b H). split; reflexivity.
Qed.

(** The playlist of the running game is removed by a click on the icon;
    on a page that lists a playlist with the id a'b, the click on its
    remove button sends nothing. *)
Lemma click_remove_on_icon_selects_witness :
  (requests (window (handle (Click_playlistRemove 0 true Reports) playing))
   = requests (window playing) ++ [DELETE_playlist (VStr "p1")] /\
   selectedPlaylist (this (handle (Click_playlistRemove 0 true Reports) playing))
   = party_mix) /\
  (fst (on (Click_playlistRemove 0 false Reports) listing_quoted) = Throw SyntaxError /\
   requests (window (handle (Click_playlistRemove 0 false Reports) listing_quoted))
   = requests (window listing_quoted)).
Proof.
  split.
  - destruct (click_remove_on_icon_selects playing 0 party_mix true Reports)
      as ((_ & Hon & Hsel & _) & _).
    + reflexivity.
    + reflexivity.
    + split; [rewrite Hon; reflexivity | exact Hsel].
  - destruct (click_remove_on_icon_selects listing_quoted 0 quoted_mix false Reports)
      as (_ & Hbad).
    + reflexivity.
    + destruct (Hbad eq_refl false) as (Hthrow & Hreq & _).
      split; [exact Hthrow | exact Hreq].
Defined.

(** ** Asking for a track and receiving it *)

Lemma playRandomTrack_spec s :
  playRandomTrack s =
  (Ret tt,
   if nullish (selectedPlaylist (this s)) then
     on_window (add_alert "Failed to load track. Please try again.")
       (on_window (add_console "Error playing track:") s)
   else
     on_window (add_request (GET_play_track (field (selectedPlaylist (this s)) "id"))) s).
Proof.
  unfold playRandomTrack, try_catch, bind, gets, lift. cbn beta iota.
  destruct (nullish (selectedPlaylist (this s))) eqn:Hn.
  - rewrite (prop_nullish _ _ Hn). reflexivity.
  - rewrite (prop_not_nullish _ _ Hn). reflexivity.
Qed.

Lemma playNextSong_spec s :
  playNextSong s =
  (Ret tt,
   let s1 := on_this (set_currentScreen game) (on_document (set_activeScreen game) s) in
   if nullish (selectedPlaylist (this s)) then
     on_window (add_alert "Failed to load track. Please try again.")
       (on_window (add_console "Error playing track:") s1)
   else
     on_window (add_request (GET_play_track (field (selectedPlaylist (this s)) "id"))) s1).
Proof.
  unfold playNextSong, showScreen, bind, modify. cbn beta iota.
  rewrite playRandomTrack_spec. reflexivity.
Qed.

(** X9: playNextSong shows the game screen whatever the state.  It sends
    exactly one request, for the id of the selected playlist, unless
    selectedPlaylist is null or undefined: then building the URL fails, no
    request is sent, the error is logged and the user is told that the
    track failed to load.  The current track and the counter are not
    touched: the previous track stays loaded until the next one arrives. *)
Theorem playNextSong_outcomes (s : state) :
  let sel := selectedPlaylist (this s) in
  let s' := exec playNextSong s in
  currentScreen (this s') = game /\
  activeScreen (document s') = game /\
  currentTrack (this s') = currentTrack (this s) /\
  tracksPlayed (this s') = tracksPlayed (this s) /\
  selectedPlaylist (this s') = sel /\
  (nullish sel = true ->
   requests (window s') = requests (window s) /\
   alerts (window s') = alerts (window s) ++ ["Failed to load track. Please try again."] /\
   console (window s') = console (window s) ++ ["Error playing track:"]) /\
  (nullish sel = false ->
   requests (window s') = requests (window s) ++ [GET_play_track (field sel "id")] /\
   alerts (window s') = alerts (window s) /\
   console (window s') = console (window s)).
Proof.
  intros sel s'. subst sel s'. unfold exec.
  rewrite playNextSong_spec. cbn [snd]. cbv zeta.
  destruct (nullish (selectedPlaylist (this s))); repeat split;
    intros; first [reflexivity | discriminate].
Qed.

(** Play-next in the running game asks for a track of the playlist. *)
Lemma playNextSong_outcomes_witness :
  requests (window (exec playNextSong playing))
  = requests (window playing) ++ [GET_play_track (VStr "p1")].
Proof.
  destruct (playNextSong_outcomes playing) as (_ & _ & _ & _ & _ & _ & H).
  destruct H as (Hreq & _); [reflexivity|]. exact Hreq.
Defined.

Lemma track_of_no_body resp : no_body resp = true -> track_of resp = VUndefined.
Proof.
  destruct resp as [|ok [data|]]; try reflexivity.
  simpl. intros H. unfold field. rewrite (prop_nullish _ _ H). reflexivity.
Qed.

(** What the settling of a track request does, case by case. *)
Lemma playRandomTrack_resume_spec resp played s :
  exec (playRandomTrack_resume resp played) s =
  if no_body resp then
    on_window (add_alert "Failed to load track. Please try again.")
      (on_window (add_console "Error playing track:") s)
  else if truthy (track_of resp) then track_loaded (track_of resp) played s
  else s.
Proof.
  destruct resp as [|ok [data|]]; try reflexivity.
  unfold no_body, track_of, field.
  unfold playRandomTrack_resume, exec, try_catch, bind, await_fetch, await_json,
    ret, lift, when.
  destruct (nullish data) eqn:Hd.
  - rewrite (prop_nullish _ _ Hd). reflexivity.
  - rewrite (prop_not_nullish _ _ Hd). fold (field data "track").
    destruct (truthy (field data "track")) eqn:Ht; [|reflexivity].
    unfold track_loaded. cbn -[prop truthy field].
    rewrite (prop_truthy _ _ Ht).
    destruct (truthy (field (field data "track") "stream_url")); [|reflexivity].
    destruct played; reflexivity.
Qed.

Lemma track_loaded_this track played s :
  this (track_loaded track played s)
  = set_tracksPlayed (tracksPlayed (this s) + 1) (set_currentTrack track (this s)).
Proof.
  unfold track_loaded.
  destruct (truthy (field track "stream_url")); [|reflexivity].
  destruct played; reflexivity.
Qed.

(** X10: a track request that fails.  When the request is rejected, or the
    body is not JSON or is the JSON null, the error is logged and the user
    is told that the track failed to load; when the body can be read but
    has no (truthy) [track], nothing happens at all, not even an alert.  In
    both cases the current track, the counter, the player and the screen
    stay as they are. *)
Theorem track_fetch_failures (s : state) (resp : response) (played : bool) :
  truthy (track_of resp) = false ->
  let s' := exec (playRandomTrack_resume resp played) s in
  (no_body resp = false -> s' = s) /\
  (no_body resp = true ->
   alerts (window s') = alerts (window s) ++ ["Failed to load track. Please try again."] /\
   console (window s') = console (window s) ++ ["Error playing track:"]) /\
  this s' = this s /\ audioPlayer s' = audioPlayer s /\ document s' = document s.
Proof.
  intros Ht s'. subst s'. rewrite playRandomTrack_resume_spec, Ht.
  destruct (no_body resp); repeat split; intros; first [reflexivity | discriminate].
Qed.

(** A response [{}] in the started game: the user sees nothing. *)
Lemma track_fetch_failures_witness :
  exec (playRandomTrack_resume (Response true (Some (VObj []))) false) started = started.
Proof.
  destruct (track_fetch_failures started (Response true (Some (VObj []))) false)
    as (H & _).
  - reflexivity.
  - apply H. reflexivity.
Defined.





(** X13: a reset does not cancel a track request that is still pending.
    When the reset has resolved and the track arrives afterwards, the track
    is loaded and counted while the playlist screen is shown: the counter
    is 1, not 0. *)
Theorem track_arriving_after_reset_is_counted
    (s : state) (i : nat) (id : value) (resp : response)
    (ok : bool) (body : option value) (played : bool) :
  pending (window s) !! i = Some (GET_play_track id) ->
  truthy (track_of resp) = true ->
  let s1 := complete resetGame (Response ok body) played s in
  let s2 := handle (Settled i resp played) s1 in
  pending (window s1) = pending (window s) /\
  currentScreen (this s2) = playlist /\
  currentTrack (this s2) = track_of resp /\
  tracksPlayed (this s2) = 1.
Proof.
  intros Hi Ht s1 s2.
  assert (Hs1 : s1 = exec (resetGame_resume (Response ok body)) (sent POST_reset s)).
  { subst s1. rewrite (complete_fetch _ POST_reset) by apply resetGame_sends.
    reflexivity. }
  assert (Hp : pending (window s1) = pending (window s)).
  { rewrite Hs1, resetGame_resume_resolved. reflexivity. }
  split; [exact Hp|].
  subst s2. rewrite (handle_settled i resp played s1 (GET_play_track id))
    by (rewrite Hp; exact Hi).
  unfold resume. rewrite playRandomTrack_resume_spec.
  destruct (no_body resp) eqn:Hb.
  { rewrite (track_of_no_body _ Hb) in Ht. discriminate. }
  rewrite Ht, track_loaded_this.
  rewrite Hs1, resetGame_resume_resolved. repeat split.
Qed.

(** The game is started and reset before its first track arrives. *)
Lemma track_arriving_after_reset_is_counted_witness :
  let resp := Response true (Some (VObj [("track", track_XY)])) in
  let s1 := complete resetGame (Response true None) false started in
  tracksPlayed (this (handle (Settled 0 resp false) s1)) = 1 /\
  currentScreen (this (handle (Settled 0 resp false) s1)) = playlist.
Proof.
  destruct (track_arriving_after_reset_is_counted started 0 (VStr "p1")
              (Response true (Some (VObj [("track", track_XY)]))) true None false)
    as (_ & Hscr & _ & Hn).
  - reflexivity.
  - reflexivity.
  - split; [exact Hn | exact Hscr].
Defined.

(** ** Opening the track, and the authorization that succeeds *)




Lemma truthy_auth_url_readable resp :
  truthy (auth_url_of resp) = true -> unreadable resp = false.
Proof.
  destruct resp as [|ok [data|]]; simpl; try discriminate.
  unfold field. destruct (prop data "auth_url"); [reflexivity | discriminate].
Qed.

(** X15: an authorization response with a URL.  When the body of the
    response has a (truthy) [auth_url], the controller assigns exactly that
    URL to the location, once, and the status of the response plays no
    part.  If the browser accepts the URL the navigation starts, no alert
    is shown and nothing is logged; if the URL does not parse, the setter
    throws inside the try: no navigation, the error is logged and the user
    is told that connecting failed. *)
Theorem authorize_success (s : state) (resp : response) (granted : bool) :
  truthy (auth_url_of resp) = true ->
  let s' := complete connectToSpotify resp granted s in
  requests (window s') = requests (window s) ++ [GET_authorize] /\
  this s' = this s /\ document s' = document s /\
  (granted = true ->
   navigations (window s') = navigations (window s) ++ [auth_url_of resp] /\
   alerts (window s') = alerts (window s) /\
   console (window s') = console (window s)) /\
  (granted = false ->
   navigations (window s') = navigations (window s) /\
   alerts (window s') =
     alerts (window s) ++ ["Failed to connect to Spotify. Please try again."] /\
   console (window s') = console (window s) ++ ["Error connecting to Spotify:"]).
Proof.
  intros Ht s'. subst s'.
  rewrite (complete_fetch _ GET_authorize) by apply connectToSpotify_sends.
  unfold resume. rewrite connectToSpotify_resume_spec.
  rewrite (truthy_auth_url_readable _ Ht), Ht.
  destruct granted; repeat split; intros; first [reflexivity | discriminate].
Qed.

(** A 500 response that still carries a URL sends the browser there; a URL
    that the browser refuses ends in the alert. *)
Lemma authorize_success_witness :
  let resp := Response false (Some (VObj [("auth_url", VStr "https://accounts/")])) in
  navigations (window (complete connectToSpotify resp true fresh))
  = [VStr "https://accounts/"] /\
  let bad := Response true (Some (VObj [("auth_url", VStr "https://")])) in
  navigations (window (complete connectToSpotify bad false fresh)) = [] /\
  alerts (window (complete connectToSpotify bad false fresh))
  = ["Failed to connect to Spotify. Please try again."].
Proof.
  split.
  - destruct (authorize_success fresh
                (Response false (Some (VObj [("auth_url", VStr "https://accounts/")])))
                true) as (_ & _ & _ & Hyes & _).
    + reflexivity.
    + destruct (Hyes eq_refl) as (Hnav & _). exact Hnav.
  - destruct (authorize_success fresh
                (Response true (Some (VObj [("auth_url", VStr "https://")])))
                false) as (_ & _ & _ & _ & Hno).
    + reflexivity.
    + destruct (Hno eq_refl) as (Hnav & Hal & _). split; [exact Hnav | exact Hal].
Defined.

(** ** Startup, in general *)

(** X16: the constructor, for every query string and every store.  A
    non-empty [session_id] in the query string is stored under
    [spotify_session], over whatever was stored, and the playlist screen is
    shown with one request for the playlists.  Otherwise a non-empty stored
    session gives the same screen and request and the store is left as it
    is.  Otherwise (each of the two absent or empty) the connect screen is
    shown and no request is sent.  In every case nothing is selected, no
    track is loaded, the counter is 0 and no alert is shown. *)
Theorem startup_cases
    (doc : page) (player : audio) (store : gmap string string)
    (query : list (string * string)) :
  let sid := first_param "session_id" query in
  let s := SongamizerApp doc player store query in
  (if present sid then
     localStorage (window s) = <["spotify_session" := default "" sid]> store /\
     currentScreen (this s) = playlist /\
     requests (window s) = [GET_playlists]
   else if present (store !! "spotify_session") then
     localStorage (window s) = store /\
     currentScreen (this s) = playlist /\
     requests (window s) = [GET_playlists]
   else
     localStorage (window s) = store /\
     currentScreen (this s) = connect /\
     requests (window s) = []) /\
  activeScreen (document s) = currentScreen (this s) /\
  selectedPlaylist (this s) = VNull /\
  currentTrack (this s) = VNull /\
  tracksPlayed (this s) = 0 /\
  alerts (window s) = [] /\
  audioPlayer s = player.
Proof.
  intros sid s. subst sid s.
  unfold SongamizerApp, init, bindEvents, checkAuthStatus, urlParams_get, getItem,
    exec, bind, gets, ret, present.
  cbn [window search localStorage].
  destruct (truthy (nullable (first_param "session_id" query))).
  - cbn. repeat split.
  - cbn [snd fst window localStorage].
    destruct (truthy (nullable (store !! "spotify_session"))); cbn; repeat split.
Qed.

(** ** Invariants of every run *)

Lemma agree_screens s s' : screens s' = screens s -> agree s -> agree s'.
Proof.
  unfold screens, agree. intros Heq H. injection Heq as Hcur Hact. congruence.
Qed.

Lemma shown_screens s s' : shown s' = shown s -> screens s' = screens s.
Proof. unfold shown. intros H. congruence. Qed.

Lemma step_agree e s : agree s -> agree (handle e s).
Proof.
  intros Hs.
  destruct e as [|answer| | | | | | | |i|i on_icon otherwise|i resp played];
    try (apply (agree_screens s); [|exact Hs];
         match goal with
         | |- screens (handle ?e _) = _ =>
             apply shown_screens, (quiet_keeps_shown e eq_refl s)
         end).
  - unfold handle, exec, on.
    destruct (truthy (selectedPlaylist (this s))) eqn:Ht.
    + rewrite (startGame_selected s Ht). reflexivity.
    + rewrite (startGame_unselected s Ht). exact Hs.
  - unfold handle, exec, on.
    destruct (truthy (currentTrack (this s))) eqn:Ht.
    + rewrite (revealCard_loaded s Ht). reflexivity.
    + rewrite (revealCard_unloaded s Ht). exact Hs.
  - pose proof (playNextSong_shown s) as Hshown.
    unfold shown, screens in Hshown. injection Hshown as Hcur Hact _.
    unfold agree, handle, on. congruence.
  - reflexivity.
  - apply (agree_screens s); [|exact Hs].
    apply (select_keeps_screens (Click_playlistItem i) I).
  - apply (agree_screens s); [|exact Hs].
    apply (select_keeps_screens (Click_playlistRemove i on_icon otherwise) I).
  - destruct (pending (window s) !! i) as [r|] eqn:Hr.
    + rewrite (handle_settled _ _ _ _ _ Hr).
      set (s1 := on_window (set_pending (delete i (pending (window s)))) s).
      assert (Hs1 : agree s1) by exact Hs.
      destruct r;
        try (apply (agree_screens s1); [|exact Hs1];
             match goal with
             | |- screens (exec (resume ?r _ _) _) = _ =>
                 apply shown_screens, (background_keeps_shown r resp played eq_refl s1)
             end).
      * apply (agree_screens s1); [|exact Hs1].
        apply shown_screens, (playRandomTrack_resume_keeps_shown resp played s1).
      * unfold resume. destruct resp as [|ok body].
        -- rewrite resetGame_resume_rejected. exact Hs1.
        -- rewrite resetGame_resume_resolved. reflexivity.
    + rewrite (handle_settled_none _ _ _ _ Hr). exact Hs.
Qed.

(** X17: whatever the events and their order, also when listeners run
    while their button is not on the active screen, the screen that the
    document shows is the one the controller records in currentScreen. *)
Theorem document_shows_currentScreen (s : state) :
  reachable_any s -> activeScreen (document s) = currentScreen (this s).
Proof.
  induction 1 as [doc player store query | e s Hs IH].
  - apply new_consistent.
  - apply step_agree. exact IH.
Qed.

(** Play-next run while the connect screen is shown: the document shows
    the game screen, as the controller records. *)
Lemma document_shows_currentScreen_witness :
  activeScreen (document (handle Click_playNextBtn fresh)) = game.
Proof.
  rewrite (document_shows_currentScreen (handle Click_playNextBtn fresh)).
  - reflexivity.
  - apply reachable_any_step, reachable_any_new.
Defined.

Lemma click_keeps_display e :
  match e with Settled _ _ _ | Click_revealBtn => False | _ => True end ->
  keeps display (on e).
Proof. destruct e; simpl; intros H; try contradiction; keeps_tac. Qed.

Lemma background_keeps_display r resp played :
  background r = true -> keeps display (resume r resp played).
Proof. destruct r; simpl; intros H; try discriminate; keeps_tac. Qed.

Lemma init_keeps_display : keeps display init.
Proof.
  unfold init, bindEvents, checkAuthStatus, urlParams_get, getItem, setItem.
  keeps_tac.
Qed.

Lemma counter_displayed_display s s' :
  display s' = display s -> counter_displayed s -> counter_displayed s'.
Proof.
  unfold display, counter_displayed. intros Heq H.
  injection Heq as Hn Ht Hr. rewrite Hn, Ht, Hr. exact H.
Qed.

Lemma step_counter_displayed e s :
  counter_displayed s -> counter_displayed (handle e s).
Proof.
  intros Hs. pose proof Hs as (Hpos & Htext & Hreveal).
  destruct e as [|answer| | | | | | | |i|i on_icon otherwise|i resp played];
    try (apply (counter_displayed_display s); [|exact Hs];
         match goal with
         | |- display (handle ?e _) = _ => apply (click_keeps_display e I)
         end).
  - (* revealCard writes the counter into the reveal screen *)
    unfold handle, exec, on.
    destruct (truthy (currentTrack (this s))) eqn:Ht.
    + rewrite (revealCard_loaded s Ht).
      split; [exact Hpos|]. split; [exact Htext|]. left. reflexivity.
    + rewrite (revealCard_unloaded s Ht). exact Hs.
  - destruct (pending (window s) !! i) as [r|] eqn:Hr.
    + rewrite (handle_settled _ _ _ _ _ Hr).
      set (s1 := on_window (set_pending (delete i (pending (window s)))) s).
      assert (Hs1 : counter_displayed s1) by exact Hs.
      destruct r;
        try (apply (counter_displayed_display s1); [|exact Hs1];
             match goal with
             | |- display (exec (resume ?r _ _) _) = _ =>
                 apply (background_keeps_display r resp played eq_refl s1)
             end).
      * (* a track arrives *)
        unfold resume. rewrite playRandomTrack_resume_spec.
        destruct (no_body resp); [exact Hs1|].
        destruct (truthy (track_of resp)); [|exact Hs1].
        assert (Hloaded : display (track_loaded (track_of resp) played s1)
                          = (tracksPlayed (this s) + 1,
                             Some (tracksPlayed (this s) + 1),
                             Some (tracksPlayed (this s) + 1))).
        { unfold track_loaded.
          destruct (truthy (field (track_of resp) "stream_url")); [|reflexivity].
          destruct played; reflexivity. }
        unfold display in Hloaded. injection Hloaded as Hn Ht Hrv.
        unfold counter_displayed. rewrite Hn, Ht, Hrv.
        split; [lia|]. split; left; reflexivity.
      * (* a reset settles *)
        unfold resume. destruct resp as [|ok body].
        -- rewrite resetGame_resume_rejected. exact Hs1.
        -- rewrite resetGame_resume_resolved.
           split; [cbn; lia|]. split; left; reflexivity.
    + rewrite (handle_settled_none _ _ _ _ Hr). exact Hs.
Qed.

Lemma run_snoc doc player store query es e :
  run doc player store query (es ++ [e])
  = handle e (run doc player store query es).
Proof. unfold run. rewrite fold_left_app. reflexivity. Qed.

Lemma run_reachable_any doc player store query es :
  reachable_any (run doc player store query es).
Proof.
  induction es as [|e es IH] using rev_ind.
  - apply reachable_any_new.
  - rewrite run_snoc. apply reachable_any_step. exact IH.
Qed.

(** X18: the counter that is shown is never stale.  On a page whose two
    counter texts have not been written yet, after the constructor and any
    events in any order the play counter is not negative and each of the
    two texts shows exactly the current value of the counter, or is still
    unwritten while the counter is 0. *)
Theorem counter_texts_never_stale
    (doc : page) (player : audio) (store : gmap string string)
    (query : list (string * string)) (es : list event) :
  tracksPlayedText doc = None ->
  revealTracksPlayed doc = None ->
  let s := run doc player store query es in
  0 <= tracksPlayed (this s) /\
  up_to_date (tracksPlayedText (document s)) (tracksPlayed (this s)) /\
  up_to_date (revealTracksPlayed (document s)) (tracksPlayed (this s)).
Proof.
  intros Ht Hr s. subst s. change (counter_displayed (run doc player store query es)).
  induction es as [|e es IH] using rev_ind.
  - unfold run, fold_left, SongamizerApp, exec.
    apply (counter_displayed_display
             (mkState (mkApp connect VNull VNull 0 0) player doc
                (mkEnv store query [] [] [] [] [] []))).
    + apply init_keeps_display.
    + unfold counter_displayed. cbn. rewrite Ht, Hr.
      split; [lia|]. split; right; split; reflexivity.
  - rewrite run_snoc. apply step_counter_displayed. exact IH.
Qed.

(** The events up to the first track of a game. *)
Lemma counter_texts_never_stale_witness :
  let s := run blank_page silent_player ∅ [("session_id", "abc123")]
             (to_first_track track_XY) in
  0 <= tracksPlayed (this s) /\
  up_to_date (tracksPlayedText (document s)) (tracksPlayed (this s)) /\
  up_to_date (revealTracksPlayed (document s)) (tracksPlayed (this s)).
Proof. apply counter_texts_never_stale; reflexivity. Defined.

(** ** What no event does *)







(** ** What the methods throw, they catch *)





(** ** The class of the reveal card *)



(** ** No retry: at most one request per event *)






(** ** Selecting, then starting *)

(** X23: a click on a rendered playlist followed by a click on start.
    When the playlist is truthy (an object, as the server sends them), the
    game screen is shown and one track of that playlist is requested, with
    no alert.  When the rendered playlist is a falsy value (0, the empty
    string, false), its item is marked selected and the start button is
    enabled all the same, but start refuses with the alert 'Please select a
    playlist first.' and the screen stays. *)
Theorem select_then_start (s : state) (i : nat) (p : value) (b : bool) :
  playlistList (document s) !! i = Some (p, b) ->
  let s1 := handle (Click_playlistItem i) s in
  let s2 := handle Click_startPlayingBtn s1 in
  playlistList (document s1) !! i = Some (p, true) /\
  startPlayingBtn_disabled (document s1) = false /\
  (truthy p = true ->
   currentScreen (this s2) = game /\
   requests (window s2) = requests (window s) ++ [GET_play_track (field p "id")] /\
   alerts (window s2) = alerts (window s)) /\
  (truthy p = false ->
   currentScreen (this s2) = currentScreen (this s) /\
   requests (window s2) = requests (window s) /\
   alerts (window s2) = alerts (window s) ++ ["Please select a playlist first."]).
Proof.
  intros H s1 s2.
  assert (Hs1 : s1 = on_document (fun d =>
      set_startPlayingBtn_disabled false
        (set_playlistList
           (alter (fun it => (fst it, true)) i
              (map (fun it => (fst it, false)) (playlistList d))) d))
    (on_this (set_selectedPlaylist p) s)) by (apply (click_playlistItem s i p b H)).
  split.
  { rewrite Hs1. cbn. rewrite lookup_selected, H. cbn. rewrite Nat.eqb_refl. reflexivity. }
  split; [rewrite Hs1; reflexivity|].
  assert (Hsel : selectedPlaylist (this s1) = p) by (rewrite Hs1; reflexivity).
  split; intros Hp; subst s2; unfold handle at 1 2 3, exec at 1 2 3, on.
  - rewrite startGame_selected by (rewrite Hsel; exact Hp).
    rewrite Hsel, Hs1. repeat split.
  - rewrite startGame_unselected by (rewrite Hsel; exact Hp).
    rewrite Hs1. repeat split.
Qed.

(** On the page of the running game: the playlist, then start. *)
Lemma select_then_start_witness :
  let s2 := handle Click_startPlayingBtn (handle (Click_playlistItem 0) playing) in
  currentScreen (this s2) = game /\
  requests (window s2) = requests (window playing) ++ [GET_play_track (VStr "p1")].
Proof.
  destruct (select_then_start playing 0 party_mix true) as (_ & _ & Hgo & _).
  - reflexivity.
  - destruct Hgo as (Hscr & Hreq & _); [reflexivity|].
    split; [exact Hscr | exact Hreq].
Defined.

(** ** Two responses *)

(** X24: every track received counts, and the last to arrive stays.  When
    two track responses settle one after the other (after a double click,
    or a play-next before the previous track has arrived), the counter goes
    up by 2 and the current track is the one of the response that settled
    last, whichever request was sent first. *)
Theorem two_tracks_last_arrived_wins
    (s : state) (resp1 resp2 : response) (played1 played2 : bool) :
  truthy (track_of resp1) = true ->
  truthy (track_of resp2) = true ->
  let s' := exec (playRandomTrack_resume resp2 played2)
              (exec (playRandomTrack_resume resp1 played1) s) in
  currentTrack (this s') = track_of resp2 /\
  tracksPlayed (this s') = tracksPlayed (this s) + 2 /\
  tracksPlayedText (document s') = Some (tracksPlayed (this s) + 2).
Proof.
  intros H1 H2 s'. subst s'.
  rewrite !playRandomTrack_resume_spec.
  destruct (no_body resp1) eqn:Hb1.
  { rewrite (track_of_no_body _ Hb1) in H1. discriminate. }
  destruct (no_body resp2) eqn:Hb2.
  { rewrite (track_of_no_body _ Hb2) in H2. discriminate. }
  rewrite H1, H2.
  assert (Hthis : this (track_loaded (track_of resp2) played2
                          (track_loaded (track_of resp1) played1 s))
                  = set_tracksPlayed (tracksPlayed (this s) + 2)
                      (set_currentTrack (track_of resp2) (this s))).
  { rewrite !track_loaded_this. cbn.
    replace (tracksPlayed (this s) + 1 + 1) with (tracksPlayed (this s) + 2) by lia.
    reflexivity. }
  rewrite Hthis. split; [reflexivity|]. split; [reflexivity|].
  unfold track_loaded at 1.
  assert (Hn : tracksPlayed (this (track_loaded (track_of resp1) played1 s)) + 1
               = tracksPlayed (this s) + 2).
  { rewrite track_loaded_this. cbn. lia. }
  rewrite Hn.
  destruct (truthy (field (track_of resp2) "stream_url")); [|reflexivity].
  destruct played2; reflexivity.
Qed.

(** Two tracks arrive in the started game. *)
Lemma two_tracks_last_arrived_wins_witness :
  let r1 := Response true (Some (VObj [("track", track_XY)])) in
  let r2 := Response true (Some (VObj [("track", track_year_0)])) in
  let s' := exec (playRandomTrack_resume r2 false)
              (exec (playRandomTrack_resume r1 false) started) in
  currentTrack (this s') = track_year_0 /\
  tracksPlayed (this s') = tracksPlayed (this started) + 2.
Proof.
  destruct (two_tracks_last_arrived_wins started
              (Response true (Some (VObj [("track", track_XY)])))
              (Response true (Some (VObj [("track", track_year_0)]))) false false)
    as (Ht & Hn & _).
  - reflexivity.
  - reflexivity.
  - split; [exact Ht | exact Hn].
Defined.
